(** * FigureEight: figure-eight loiter helper of the fixed-wing position controller

    A shallow embedding of
    [src/modules/fw_pos_control_l1/figure_eight/FigureEight.cpp].

    The C++ type [float] is IEEE 754 binary32.  It is modelled with the
    executable specification of floating-point arithmetic of the standard
    library ([SpecFloat]) instantiated at a 24 bit mantissa and the
    exponent bound 128: every operation rounds to nearest, ties to even,
    as the target's single-precision unit does. *)

From Stdlib Require Import ZArith Bool List Lia.
From Stdlib Require Import Floats.SpecFloat.
Import ListNotations.

Set Implicit Arguments.

(** ** binary32 arithmetic *)

Module F32.

Definition prec : Z := 24.
Definition emax : Z := 128.

Definition float : Type := spec_float.

Definition add : float -> float -> float := SFadd prec emax.
Definition sub : float -> float -> float := SFsub prec emax.
Definition mul : float -> float -> float := SFmul prec emax.
Definition div : float -> float -> float := SFdiv prec emax.
Definition sqrtf : float -> float := SFsqrt prec emax.
Definition opp : float -> float := SFopp.
Definition fabsf : float -> float := SFabs.

(** The comparison operators of C: every comparison with a NaN is false. *)
Definition ltb (x y : float) : bool := SFltb x y.
Definition gtb (x y : float) : bool := SFltb y x.
Definition leb (x y : float) : bool := SFleb x y.
Definition geb (x y : float) : bool := SFleb y x.
Definition eqb (x y : float) : bool := SFeqb x y.

(** [PX4_ISFINITE], that is [std::isfinite]. *)
Definition PX4_ISFINITE (x : float) : bool :=
  match x with
  | S754_zero _ | S754_finite _ _ _ => true
  | S754_infinity _ | S754_nan => false
  end.

Definition is_nan (x : float) : bool :=
  match x with
  | S754_nan => true
  | _ => false
  end.

(** The binary32 nearest to the integer [z], and to [m * 2^e]. *)
Definition of_Z (z : Z) : float := binary_normalize prec emax z 0 false.
Definition of_scaled (m e : Z) : float := binary_normalize prec emax m e false.

(** A well-formed binary32 datum: the mantissa is in canonical position
    and the exponent is in range. *)
Definition valid (x : float) : bool := valid_binary prec emax x.

(** Two floats that denote the same datum once the sign of a zero is
    forgotten.  C's [==] cannot tell [+0] from [-0]. *)
Definition unsigned_zero (x : float) : float :=
  match x with
  | S754_zero _ => S754_zero false
  | _ => x
  end.

Definition same (x y : float) : Prop := unsigned_zero x = unsigned_zero y.

End F32.

Import F32.

Declare Scope f32_scope.
Delimit Scope f32_scope with f32.
Bind Scope f32_scope with float.
Infix "+" := add : f32_scope.
Infix "-" := sub : f32_scope.
Infix "*" := mul : f32_scope.
Infix "/" := div : f32_scope.
Notation "- x" := (opp x) : f32_scope.
Infix "<?" := ltb : f32_scope.
Infix ">?" := gtb : f32_scope.
Infix "<=?" := leb : f32_scope.
Infix ">=?" := geb : f32_scope.
Infix "==" := same (at level 70, no associativity) : f32_scope.

Local Open Scope f32_scope.

(** ** Constants of the translation unit and of the C library *)

Definition zero : float := S754_zero false.
Definition one : float := of_Z 1.

Definition NORMALIZED_MAJOR_RADIUS : float := one.
Definition NORTH_CIRCLE_IS_COUNTER_CLOCKWISE : bool := false.
Definition SOUTH_CIRCLE_IS_COUNTER_CLOCKWISE : bool := true.
Definition MINIMUM_MINOR_TO_MAJOR_AXIS_SCALE : float := of_Z 2.
Definition DEFAULT_MAJOR_TO_MINOR_AXIS_RATIO : float := of_scaled 5 (-1).
Definition MINIMAL_FEASIBLE_MAJOR_TO_MINOR_AXIS_RATIO : float := of_Z 2.

(** [FLT_EPSILON] and [FLT_MAX] of [<cfloat>]: [2^-23] and
    [(2^24 - 1) * 2^104]. *)
Definition FLT_EPSILON : float := of_scaled 1 (-23).
Definition FLT_MAX : float := of_scaled 16777215 104.

(** Modelled from the spec: the macro [M_PI_F] of the platform headers is
    not part of the translation unit; the rotation adds 180 degrees, and
    the constant is the binary32 nearest to pi, [13176795 * 2^-22]. *)
Definition M_PI_F : float := of_scaled 13176795 (-22).

(** Modelled from the spec: [math::max] of the maths library is not part
    of the translation unit; it clamps its first argument from below by
    the second, returning the first when it compares greater and the
    second otherwise. *)
Definition math_max (a b : float) : float := if a >? b then a else b.

(** ** Data model *)

Record Vector2f : Type := mkVector2f { v0 : float ; v1 : float }.

Definition vsub (a b : Vector2f) : Vector2f :=
  mkVector2f (v0 a - v0 b) (v1 a - v1 b).
Definition vadd (a b : Vector2f) : Vector2f :=
  mkVector2f (v0 a + v0 b) (v1 a + v1 b).
Definition vscale (a : Vector2f) (k : float) : Vector2f :=
  mkVector2f (v0 a * k) (v1 a * k).
Definition vopp (a : Vector2f) : Vector2f :=
  mkVector2f (- v0 a) (- v1 a).

Definition vsame (a b : Vector2f) : Prop :=
  v0 a == v0 b /\ v1 a == v1 b.

(** C's [==] on both components, and the test for a component that is not
    a number. *)
Definition veqb (a b : Vector2f) : bool := eqb (v0 a) (v0 b) && eqb (v1 a) (v1 b).
Definition vis_nan (a : Vector2f) : bool := is_nan (v0 a) || is_nan (v1 a).

Record FigureEightPatternParameters : Type := mkParameters {
  center_pos_local : Vector2f ;
  loiter_radius : float ;
  loiter_minor_radius : float ;
  loiter_orientation : float ;
  loiter_direction_counter_clockwise : bool
}.

Record FigureEightPatternPoints : Type := mkPoints {
  normalized_north_circle_offset : Vector2f ;
  normalized_north_entry_offset : Vector2f ;
  normalized_north_exit_offset : Vector2f ;
  normalized_south_circle_offset : Vector2f ;
  normalized_south_entry_offset : Vector2f ;
  normalized_south_exit_offset : Vector2f
}.

Inductive FigureEightSegment : Type :=
| SEGMENT_UNDEFINED
| SEGMENT_CIRCLE_NORTH
| SEGMENT_NORTHEAST_SOUTHWEST
| SEGMENT_CIRCLE_SOUTH
| SEGMENT_SOUTHEAST_NORTHWEST.

Definition segment_eqb (a b : FigureEightSegment) : bool :=
  match a, b with
  | SEGMENT_UNDEFINED, SEGMENT_UNDEFINED
  | SEGMENT_CIRCLE_NORTH, SEGMENT_CIRCLE_NORTH
  | SEGMENT_NORTHEAST_SOUTHWEST, SEGMENT_NORTHEAST_SOUTHWEST
  | SEGMENT_CIRCLE_SOUTH, SEGMENT_CIRCLE_SOUTH
  | SEGMENT_SOUTHEAST_NORTHWEST, SEGMENT_SOUTHEAST_NORTHWEST => true
  | _, _ => false
  end.

(** ** Pattern geometry *)

Definition cos_transition_angle (parameters : FigureEightPatternParameters) : float :=
  loiter_minor_radius parameters /
  (loiter_radius parameters - loiter_minor_radius parameters).

Definition sin_transition_angle (parameters : FigureEightPatternParameters) : float :=
  sqrtf (one - cos_transition_angle parameters * cos_transition_angle parameters).

Definition normalized_minor_radius (parameters : FigureEightPatternParameters) : float :=
  (loiter_minor_radius parameters / loiter_radius parameters) * NORMALIZED_MAJOR_RADIUS.

Definition calculateFigureEightPoints (parameters : FigureEightPatternParameters)
  : FigureEightPatternPoints :=
  let r := normalized_minor_radius parameters in
  let c := cos_transition_angle parameters in
  let s := sin_transition_angle parameters in
  {| normalized_north_circle_offset :=
       mkVector2f (NORMALIZED_MAJOR_RADIUS - r) zero ;
     normalized_north_entry_offset :=
       mkVector2f (NORMALIZED_MAJOR_RADIUS - (r * (one + c))) ((- r) * s) ;
     normalized_north_exit_offset :=
       mkVector2f (NORMALIZED_MAJOR_RADIUS - (r * (one + c))) (r * s) ;
     normalized_south_circle_offset :=
       mkVector2f ((- NORMALIZED_MAJOR_RADIUS) + r) zero ;
     normalized_south_entry_offset :=
       mkVector2f ((- NORMALIZED_MAJOR_RADIUS) + (r * (one + c))) ((- r) * s) ;
     normalized_south_exit_offset :=
       mkVector2f ((- NORMALIZED_MAJOR_RADIUS) + (r * (one + c))) (r * s) |}.

(** ** Orientation of the pattern *)

Definition calculateRotationAngle (parameters : FigureEightPatternParameters) : float :=
  let yaw_rotation := loiter_orientation parameters in
  if loiter_direction_counter_clockwise parameters
  then yaw_rotation + M_PI_F
  else yaw_rotation.

(** ** External collaborators

    The two lateral guidance laws ([NPFG] and [ECL_L1_Pos_Controller]) and
    the vector routines of the matrix library are used by the translation
    unit but defined elsewhere.  They are an interface here: every theorem
    below holds for each of its implementations. *)

Class Collaborators : Type := {
  NPFG : Type ;
  ECL_L1_Pos_Controller : Type ;
  (** [v.transform(yaw)], [v.norm()], [a.dot(b)] and
      [Dcmf(Eulerf(0, 0, yaw)).slice<2, 2>(0, 0) * v] *)
  transform : Vector2f -> float -> Vector2f ;
  norm : Vector2f -> float ;
  dot : Vector2f -> Vector2f -> float ;
  yaw_rotation_apply : float -> Vector2f -> Vector2f ;
  (** the nonlinear path following guidance *)
  switchDistance : NPFG -> float -> float ;
  setAirspeedNom : NPFG -> float -> NPFG ;
  setAirspeedMax : NPFG -> float -> NPFG ;
  navigateLoiter :
    NPFG -> Vector2f -> Vector2f -> float -> bool -> Vector2f -> Vector2f -> NPFG ;
  navigateWaypoints :
    NPFG -> Vector2f -> Vector2f -> Vector2f -> Vector2f -> Vector2f -> NPFG ;
  getRollSetpoint : NPFG -> float ;
  getAirspeedRef : NPFG -> float ;
  (** the L1 guidance *)
  switch_distance : ECL_L1_Pos_Controller -> float -> float ;
  navigate_loiter :
    ECL_L1_Pos_Controller -> Vector2f -> Vector2f -> float -> bool -> Vector2f ->
    ECL_L1_Pos_Controller ;
  navigate_waypoints :
    ECL_L1_Pos_Controller -> Vector2f -> Vector2f -> Vector2f -> Vector2f ->
    ECL_L1_Pos_Controller ;
  get_roll_setpoint : ECL_L1_Pos_Controller -> float
}.

(** The calls made on the two guidance objects, in the order they are made. *)
Inductive DelegateCall : Type :=
| NpfgSwitchDistance (wp_radius : float)
| NpfgSetAirspeedNom (airspeed : float)
| NpfgSetAirspeedMax (airspeed : float)
| NpfgNavigateLoiter (center pos : Vector2f) (radius : float) (ccw : bool)
    (ground_vel wind_vel : Vector2f)
| NpfgNavigateWaypoints (line_start line_end pos ground_vel wind_vel : Vector2f)
| NpfgGetRollSetpoint
| NpfgGetAirspeedRef
| L1SwitchDistance (wp_radius : float)
| L1NavigateLoiter (center pos : Vector2f) (radius : float) (ccw : bool)
    (ground_vel : Vector2f)
| L1NavigateWaypoints (line_start line_end pos ground_vel : Vector2f)
| L1GetRollSetpoint.

Definition is_navigate (c : DelegateCall) : bool :=
  match c with
  | NpfgNavigateLoiter _ _ _ _ _ _ | NpfgNavigateWaypoints _ _ _ _ _
  | L1NavigateLoiter _ _ _ _ _ | L1NavigateWaypoints _ _ _ _ => true
  | _ => false
  end.

Section Controller.

Context {platform : Collaborators}.

(** ** Controller state

    The member variables of the class, the two configuration parameters
    it reads, and the objects it holds by reference. *)
Record FigureEight : Type := mkFigureEight {
  _npfg : NPFG ;
  _l1_control : ECL_L1_Pos_Controller ;
  _wind_vel : Vector2f ;
  _eas2tas : float ;
  _param_nav_loiter_rad : float ;
  _param_fw_airspd_max : float ;
  _active_parameters : FigureEightPatternParameters ;
  _current_segment : FigureEightSegment ;
  _pos_passed_circle_center_along_major_axis : bool ;
  _roll_setpoint : float ;
  _indicated_airspeed_setpoint : float ;
  delegate_calls : list DelegateCall
}.

Definition set_current_segment (seg : FigureEightSegment) (s : FigureEight) : FigureEight :=
  mkFigureEight (_npfg s) (_l1_control s) (_wind_vel s) (_eas2tas s)
    (_param_nav_loiter_rad s) (_param_fw_airspd_max s) (_active_parameters s)
    seg (_pos_passed_circle_center_along_major_axis s)
    (_roll_setpoint s) (_indicated_airspeed_setpoint s) (delegate_calls s).

Definition set_pos_passed (b : bool) (s : FigureEight) : FigureEight :=
  mkFigureEight (_npfg s) (_l1_control s) (_wind_vel s) (_eas2tas s)
    (_param_nav_loiter_rad s) (_param_fw_airspd_max s) (_active_parameters s)
    (_current_segment s) b
    (_roll_setpoint s) (_indicated_airspeed_setpoint s) (delegate_calls s).

Definition set_active_parameters (p : FigureEightPatternParameters) (s : FigureEight)
  : FigureEight :=
  mkFigureEight (_npfg s) (_l1_control s) (_wind_vel s) (_eas2tas s)
    (_param_nav_loiter_rad s) (_param_fw_airspd_max s) p
    (_current_segment s) (_pos_passed_circle_center_along_major_axis s)
    (_roll_setpoint s) (_indicated_airspeed_setpoint s) (delegate_calls s).

Definition record_calls (cs : list DelegateCall) (s : FigureEight) : FigureEight :=
  mkFigureEight (_npfg s) (_l1_control s) (_wind_vel s) (_eas2tas s)
    (_param_nav_loiter_rad s) (_param_fw_airspd_max s) (_active_parameters s)
    (_current_segment s) (_pos_passed_circle_center_along_major_axis s)
    (_roll_setpoint s) (_indicated_airspeed_setpoint s) (delegate_calls s ++ cs).

(** The outcome of a navigation request through the NPFG guidance: the
    guidance object after the request and the two setpoints read back. *)
Definition set_npfg_output (n : NPFG) (s : FigureEight) : FigureEight :=
  mkFigureEight n (_l1_control s) (_wind_vel s) (_eas2tas s)
    (_param_nav_loiter_rad s) (_param_fw_airspd_max s) (_active_parameters s)
    (_current_segment s) (_pos_passed_circle_center_along_major_axis s)
    (getRollSetpoint n) (getAirspeedRef n / _eas2tas s) (delegate_calls s).

Definition set_l1_output (l : ECL_L1_Pos_Controller) (target_airspeed : float)
    (s : FigureEight) : FigureEight :=
  mkFigureEight (_npfg s) l (_wind_vel s) (_eas2tas s)
    (_param_nav_loiter_rad s) (_param_fw_airspd_max s) (_active_parameters s)
    (_current_segment s) (_pos_passed_circle_center_along_major_axis s)
    (get_roll_setpoint l) target_airspeed (delegate_calls s).

(** ** Frame transform *)

Definition calculatePositionToCenterNormalizedRotated
    (curr_pos_local : Vector2f) (parameters : FigureEightPatternParameters) : Vector2f :=
  let pos_to_center := vsub curr_pos_local (center_pos_local parameters) in
  let pos_to_center_normalized :=
    mkVector2f
      (v0 pos_to_center * NORMALIZED_MAJOR_RADIUS / loiter_radius parameters)
      (v1 pos_to_center * NORMALIZED_MAJOR_RADIUS / loiter_radius parameters) in
  let yaw_rotation := calculateRotationAngle parameters in
  transform pos_to_center_normalized yaw_rotation.

(** ** Initialisation of the pattern *)

(** The guard of [initializePattern]: no segment is active yet, or the
    setpoint differs from the one last applied. *)
Definition pattern_needs_initialization (s : FigureEight)
    (parameters : FigureEightPatternParameters) : bool :=
  let active := _active_parameters s in
  segment_eqb (_current_segment s) SEGMENT_UNDEFINED
  || ((fabsf (v0 (center_pos_local active) - v0 (center_pos_local parameters))
         >? FLT_EPSILON)
      || (fabsf (v1 (center_pos_local active) - v1 (center_pos_local parameters))
            >? FLT_EPSILON)
      || (fabsf (loiter_radius active - loiter_radius parameters) >? FLT_EPSILON)
      || (fabsf (loiter_minor_radius active - loiter_minor_radius parameters)
            >? FLT_EPSILON)
      || (fabsf (loiter_orientation active - loiter_orientation parameters)
            >? FLT_EPSILON)
      || negb (Bool.eqb (loiter_direction_counter_clockwise active)
                        (loiter_direction_counter_clockwise parameters))).

(** The classification branch of [initializePattern]: the segment chosen
    from the position relative to the pattern and the heading. *)
Definition classifySegment (curr_pos_local ground_speed : Vector2f)
    (parameters : FigureEightPatternParameters) : FigureEightSegment :=
  let rel_pos_to_center :=
    calculatePositionToCenterNormalizedRotated curr_pos_local parameters in
  let yaw_rotation := calculateRotationAngle parameters in
  let ground_speed_rotated := transform ground_speed yaw_rotation in
  let pattern_points := calculateFigureEightPoints parameters in
  if v0 rel_pos_to_center >? NORMALIZED_MAJOR_RADIUS then
    SEGMENT_CIRCLE_NORTH
  else if v0 rel_pos_to_center <? - NORMALIZED_MAJOR_RADIUS then
    SEGMENT_CIRCLE_SOUTH
  else if dot ground_speed_rotated (mkVector2f one zero) >? zero then
    if v0 rel_pos_to_center >? v0 (normalized_north_circle_offset pattern_points)
    then SEGMENT_CIRCLE_NORTH
    else SEGMENT_SOUTHEAST_NORTHWEST
  else
    if v0 rel_pos_to_center <? v0 (normalized_south_circle_offset pattern_points)
    then SEGMENT_CIRCLE_SOUTH
    else SEGMENT_NORTHEAST_SOUTHWEST.

Definition initializePattern (s : FigureEight) (curr_pos_local ground_speed : Vector2f)
    (parameters : FigureEightPatternParameters) : FigureEight :=
  if pattern_needs_initialization s parameters then
    let s := set_current_segment
               (classifySegment curr_pos_local ground_speed parameters) s in
    let s := set_active_parameters parameters s in
    set_pos_passed false s
  else s.

Definition resetPattern (s : FigureEight) : FigureEight :=
  let s := set_current_segment SEGMENT_UNDEFINED s in
  set_pos_passed false s.

(** ** Segment state machine *)

(** The switch distance of the selected guidance in normalised units, and
    the query that obtains it. *)
Definition get_switch_distance_normalized (s : FigureEight)
    (parameters : FigureEightPatternParameters) (use_npfg : bool) : float :=
  if use_npfg
  then switchDistance (_npfg s) FLT_MAX * NORMALIZED_MAJOR_RADIUS
         / loiter_radius parameters
  else switch_distance (_l1_control s) FLT_MAX * NORMALIZED_MAJOR_RADIUS
         / loiter_radius parameters.

Definition switch_distance_query (use_npfg : bool) : DelegateCall :=
  if use_npfg then NpfgSwitchDistance FLT_MAX else L1SwitchDistance FLT_MAX.

Definition updateSegment (s : FigureEight) (curr_pos_local : Vector2f)
    (parameters : FigureEightPatternParameters) (use_npfg : bool)
    (pattern_points : FigureEightPatternPoints) : FigureEight :=
  let rel_pos_to_center :=
    calculatePositionToCenterNormalizedRotated curr_pos_local parameters in
  let switch_distance_normalized :=
    get_switch_distance_normalized s parameters use_npfg in
  let s := record_calls [switch_distance_query use_npfg] s in
  match _current_segment s with
  | SEGMENT_CIRCLE_NORTH =>
      let s :=
        if v0 rel_pos_to_center >? v0 (normalized_north_circle_offset pattern_points)
        then set_pos_passed true s
        else s in
      let vector_to_exit_normalized :=
        vsub (normalized_north_exit_offset pattern_points) rel_pos_to_center in
      if _pos_passed_circle_center_along_major_axis s
         && ((norm vector_to_exit_normalized <? switch_distance_normalized)
             || ((v0 rel_pos_to_center <? v0 (normalized_north_exit_offset pattern_points))
                 && (v1 rel_pos_to_center >? FLT_EPSILON)))
      then set_current_segment SEGMENT_NORTHEAST_SOUTHWEST s
      else s
  | SEGMENT_NORTHEAST_SOUTHWEST =>
      let s := set_pos_passed false s in
      let vector_to_exit_normalized :=
        vsub (normalized_south_entry_offset pattern_points) rel_pos_to_center in
      if (norm vector_to_exit_normalized <? switch_distance_normalized)
         || ((v0 rel_pos_to_center <? v0 (normalized_south_entry_offset pattern_points))
             && (v1 rel_pos_to_center <? FLT_EPSILON))
         || (v0 rel_pos_to_center <? - NORMALIZED_MAJOR_RADIUS)
      then set_current_segment SEGMENT_CIRCLE_SOUTH s
      else s
  | SEGMENT_CIRCLE_SOUTH =>
      let s :=
        if v0 rel_pos_to_center <? v0 (normalized_south_circle_offset pattern_points)
        then set_pos_passed true s
        else s in
      let vector_to_exit_normalized :=
        vsub (normalized_south_exit_offset pattern_points) rel_pos_to_center in
      if _pos_passed_circle_center_along_major_axis s
         && ((norm vector_to_exit_normalized <? switch_distance_normalized)
             || ((v0 rel_pos_to_center >? v0 (normalized_south_exit_offset pattern_points))
                 && (v1 rel_pos_to_center >? FLT_EPSILON)))
      then set_current_segment SEGMENT_SOUTHEAST_NORTHWEST s
      else s
  | SEGMENT_SOUTHEAST_NORTHWEST =>
      let s := set_pos_passed false s in
      let vector_to_exit_normalized :=
        vsub (normalized_north_entry_offset pattern_points) rel_pos_to_center in
      if (norm vector_to_exit_normalized <? switch_distance_normalized)
         || ((v0 rel_pos_to_center >? v0 (normalized_north_entry_offset pattern_points))
             && (v1 rel_pos_to_center <? FLT_EPSILON))
         || (v0 rel_pos_to_center >? NORMALIZED_MAJOR_RADIUS)
      then set_current_segment SEGMENT_CIRCLE_NORTH s
      else s
  | SEGMENT_UNDEFINED => s
  end.

(** ** Control dispatch *)

Definition applyCircle (s : FigureEight) (loiter_direction_counter_clockwise : bool)
    (normalized_circle_offset curr_pos_local ground_speed : Vector2f)
    (parameters : FigureEightPatternParameters) (target_airspeed : float)
    (use_npfg : bool) : FigureEight :=
  let yaw_rotation := calculateRotationAngle parameters in
  let circle_offset :=
    vscale normalized_circle_offset (loiter_radius parameters / NORMALIZED_MAJOR_RADIUS) in
  let circle_offset_rotated := yaw_rotation_apply yaw_rotation circle_offset in
  let circle_center := vadd (center_pos_local parameters) circle_offset_rotated in
  if use_npfg then
    let n := setAirspeedNom (_npfg s) (target_airspeed * _eas2tas s) in
    let n := setAirspeedMax n (_param_fw_airspd_max s * _eas2tas s) in
    let n := navigateLoiter n circle_center curr_pos_local
               (loiter_minor_radius parameters) loiter_direction_counter_clockwise
               ground_speed (_wind_vel s) in
    record_calls
      [ NpfgSetAirspeedNom (target_airspeed * _eas2tas s) ;
        NpfgSetAirspeedMax (_param_fw_airspd_max s * _eas2tas s) ;
        NpfgNavigateLoiter circle_center curr_pos_local (loiter_minor_radius parameters)
          loiter_direction_counter_clockwise ground_speed (_wind_vel s) ;
        NpfgGetRollSetpoint ; NpfgGetAirspeedRef ]
      (set_npfg_output n s)
  else
    let l := navigate_loiter (_l1_control s) circle_center curr_pos_local
               (loiter_minor_radius parameters) loiter_direction_counter_clockwise
               ground_speed in
    record_calls
      [ L1NavigateLoiter circle_center curr_pos_local (loiter_minor_radius parameters)
          loiter_direction_counter_clockwise ground_speed ;
        L1GetRollSetpoint ]
      (set_l1_output l target_airspeed s).

Definition applyLine (s : FigureEight)
    (normalized_line_start_offset normalized_line_end_offset : Vector2f)
    (curr_pos_local ground_speed : Vector2f)
    (parameters : FigureEightPatternParameters) (target_airspeed : float)
    (use_npfg : bool) : FigureEight :=
  let yaw_rotation := calculateRotationAngle parameters in
  let start_offset :=
    vscale normalized_line_start_offset
      (loiter_radius parameters / NORMALIZED_MAJOR_RADIUS) in
  let start_offset_rotated := yaw_rotation_apply yaw_rotation start_offset in
  let line_segment_start_position :=
    vadd (center_pos_local parameters) start_offset_rotated in
  let end_offset :=
    vscale normalized_line_end_offset
      (loiter_radius parameters / NORMALIZED_MAJOR_RADIUS) in
  let end_offset_rotated := yaw_rotation_apply yaw_rotation end_offset in
  let line_segment_end_position :=
    vadd (center_pos_local parameters) end_offset_rotated in
  if use_npfg then
    let n := setAirspeedNom (_npfg s) (target_airspeed * _eas2tas s) in
    let n := setAirspeedMax n (_param_fw_airspd_max s * _eas2tas s) in
    let n := navigateWaypoints n line_segment_start_position line_segment_end_position
               curr_pos_local ground_speed (_wind_vel s) in
    record_calls
      [ NpfgSetAirspeedNom (target_airspeed * _eas2tas s) ;
        NpfgSetAirspeedMax (_param_fw_airspd_max s * _eas2tas s) ;
        NpfgNavigateWaypoints line_segment_start_position line_segment_end_position
          curr_pos_local ground_speed (_wind_vel s) ;
        NpfgGetRollSetpoint ; NpfgGetAirspeedRef ]
      (set_npfg_output n s)
  else
    let l := navigate_waypoints (_l1_control s) line_segment_start_position
               line_segment_end_position curr_pos_local ground_speed in
    record_calls
      [ L1NavigateWaypoints line_segment_start_position line_segment_end_position
          curr_pos_local ground_speed ;
        L1GetRollSetpoint ]
      (set_l1_output l target_airspeed s).

Definition applyControl (s : FigureEight) (curr_pos_local ground_speed : Vector2f)
    (parameters : FigureEightPatternParameters) (target_airspeed : float)
    (use_npfg : bool) (pattern_points : FigureEightPatternPoints) : FigureEight :=
  match _current_segment s with
  | SEGMENT_CIRCLE_NORTH =>
      applyCircle s NORTH_CIRCLE_IS_COUNTER_CLOCKWISE
        (normalized_north_circle_offset pattern_points) curr_pos_local ground_speed
        parameters target_airspeed use_npfg
  | SEGMENT_NORTHEAST_SOUTHWEST =>
      applyLine s (normalized_north_exit_offset pattern_points)
        (normalized_south_entry_offset pattern_points) curr_pos_local ground_speed
        parameters target_airspeed use_npfg
  | SEGMENT_CIRCLE_SOUTH =>
      applyCircle s SOUTH_CIRCLE_IS_COUNTER_CLOCKWISE
        (normalized_south_circle_offset pattern_points) curr_pos_local ground_speed
        parameters target_airspeed use_npfg
  | SEGMENT_SOUTHEAST_NORTHWEST =>
      applyLine s (normalized_south_exit_offset pattern_points)
        (normalized_north_entry_offset pattern_points) curr_pos_local ground_speed
        parameters target_airspeed use_npfg
  | SEGMENT_UNDEFINED => s
  end.

(** The first step of [updateSetpoint]: the parameters after the
    substitution of non-finite radii and the clamp of the major radius. *)
Definition substitute_non_finite (nav_loiter_rad : float)
    (parameters : FigureEightPatternParameters) : FigureEightPatternParameters :=
  let valid_parameters := parameters in
  let valid_parameters :=
    if negb (PX4_ISFINITE (loiter_minor_radius parameters)) then
      mkParameters (center_pos_local valid_parameters) (loiter_radius valid_parameters)
        (fabsf nav_loiter_rad)
        (loiter_orientation valid_parameters)
        (loiter_direction_counter_clockwise valid_parameters)
    else valid_parameters in
  if negb (PX4_ISFINITE (loiter_radius parameters)) then
    mkParameters (center_pos_local valid_parameters)
      (DEFAULT_MAJOR_TO_MINOR_AXIS_RATIO * loiter_minor_radius valid_parameters)
      (loiter_minor_radius valid_parameters)
      (loiter_orientation valid_parameters)
      (nav_loiter_rad <? zero)
  else valid_parameters.

Definition sanitize (nav_loiter_rad : float)
    (parameters : FigureEightPatternParameters) : FigureEightPatternParameters :=
  let valid_parameters := substitute_non_finite nav_loiter_rad parameters in
  mkParameters (center_pos_local valid_parameters)
    (math_max (loiter_radius valid_parameters)
       (MINIMAL_FEASIBLE_MAJOR_TO_MINOR_AXIS_RATIO * loiter_minor_radius valid_parameters))
    (loiter_minor_radius valid_parameters)
    (loiter_orientation valid_parameters)
    (loiter_direction_counter_clockwise valid_parameters).

Definition updateSetpoint (s : FigureEight) (curr_pos_local ground_speed : Vector2f)
    (parameters : FigureEightPatternParameters) (target_airspeed : float)
    (use_npfg : bool) : FigureEight :=
  let valid_parameters := sanitize (_param_nav_loiter_rad s) parameters in
  let pattern_points := calculateFigureEightPoints valid_parameters in
  let s := updateSegment s curr_pos_local valid_parameters use_npfg pattern_points in
  applyControl s curr_pos_local ground_speed valid_parameters target_airspeed use_npfg
    pattern_points.

End Controller.

(** ** Vocabulary of the properties *)

(** [0 < x]: [x] is a positive number or plus infinity. *)
Definition positive_float (x : float) : bool :=
  match x with
  | S754_finite false _ _ | S754_infinity false => true
  | _ => false
  end.

(** The invariant of the pattern parameters in the design document: both
    radii are positive and the major radius is at least twice the minor
    radius. *)
Definition valid_pattern_parameters (parameters : FigureEightPatternParameters) : bool :=
  (zero <? loiter_minor_radius parameters)
  && (zero <? loiter_radius parameters)
  && (MINIMAL_FEASIBLE_MAJOR_TO_MINOR_AXIS_RATIO * loiter_minor_radius parameters
        <=? loiter_radius parameters).

(** The north circle centre in world units, as [applyCircle] scales it. *)
Definition north_circle_world_offset (parameters : FigureEightPatternParameters) : Vector2f :=
  vscale (normalized_north_circle_offset (calculateFigureEightPoints parameters))
         (loiter_radius parameters / NORMALIZED_MAJOR_RADIUS).

(** The order in which the segments are flown. *)
Definition next_segment (segment : FigureEightSegment) : FigureEightSegment :=
  match segment with
  | SEGMENT_UNDEFINED => SEGMENT_UNDEFINED
  | SEGMENT_CIRCLE_NORTH => SEGMENT_NORTHEAST_SOUTHWEST
  | SEGMENT_NORTHEAST_SOUTHWEST => SEGMENT_CIRCLE_SOUTH
  | SEGMENT_CIRCLE_SOUTH => SEGMENT_SOUTHEAST_NORTHWEST
  | SEGMENT_SOUTHEAST_NORTHWEST => SEGMENT_CIRCLE_NORTH
  end.

Definition is_line (segment : FigureEightSegment) : bool :=
  match segment with
  | SEGMENT_NORTHEAST_SOUTHWEST | SEGMENT_SOUTHEAST_NORTHWEST => true
  | _ => false
  end.

Definition is_circle (segment : FigureEightSegment) : bool :=
  match segment with
  | SEGMENT_CIRCLE_NORTH | SEGMENT_CIRCLE_SOUTH => true
  | _ => false
  end.

(** One control tick: the arguments of a call of [updateSetpoint]. *)
Record Tick : Type := mkTick {
  tick_pos : Vector2f ;
  tick_ground_speed : Vector2f ;
  tick_parameters : FigureEightPatternParameters ;
  tick_airspeed : float ;
  tick_use_npfg : bool
}.

Definition tick {platform : Collaborators} (s : FigureEight) (t : Tick) : FigureEight :=
  updateSetpoint s (tick_pos t) (tick_ground_speed t) (tick_parameters t)
    (tick_airspeed t) (tick_use_npfg t).

Definition run {platform : Collaborators} (s : FigureEight) (ticks : list Tick)
  : FigureEight :=
  fold_left tick ticks s.

(** The operations the owner of the controller performs on it. *)
Inductive Operation : Type :=
| OpResetPattern
| OpInitializePattern (pos ground_speed : Vector2f)
    (parameters : FigureEightPatternParameters)
| OpUpdateSetpoint (t : Tick).

Definition perform {platform : Collaborators} (s : FigureEight) (op : Operation)
  : FigureEight :=
  match op with
  | OpResetPattern => resetPattern s
  | OpInitializePattern pos ground_speed parameters =>
      initializePattern s pos ground_speed parameters
  | OpUpdateSetpoint t => tick s t
  end.

Definition flag_clear_if_undefined {platform : Collaborators} (s : FigureEight) : Prop :=
  _current_segment s = SEGMENT_UNDEFINED ->
  _pos_passed_circle_center_along_major_axis s = false.

(** The shape of the exit rule of a circle segment: the vehicle has passed
    the circle centre along the major axis, and it is within the switch
    distance of the exit point or, failing that, beyond the exit point
    along the major axis on the given lateral side. *)
Definition circle_exit_rule (passed near_exit beyond_exit lateral_side : bool) : bool :=
  passed && (near_exit || (beyond_exit && lateral_side)).

(** The flag and the exit decision of the north circle, as the design
    document words them. *)
Definition circle_north_passed {platform : Collaborators} (s : FigureEight)
    (rel : Vector2f) (points : FigureEightPatternPoints) : bool :=
  _pos_passed_circle_center_along_major_axis s
  || (v0 rel >? v0 (normalized_north_circle_offset points)).

Definition circle_north_exits {platform : Collaborators} (s : FigureEight)
    (rel : Vector2f) (switch_distance_normalized : float)
    (points : FigureEightPatternPoints) : bool :=
  circle_exit_rule (circle_north_passed s rel points)
    (norm (vsub (normalized_north_exit_offset points) rel) <? switch_distance_normalized)
    (v0 rel <? v0 (normalized_north_exit_offset points))
    (v1 rel >? FLT_EPSILON).

Definition circle_south_passed {platform : Collaborators} (s : FigureEight)
    (rel : Vector2f) (points : FigureEightPatternPoints) : bool :=
  _pos_passed_circle_center_along_major_axis s
  || (v0 rel <? v0 (normalized_south_circle_offset points)).

(** The exit decision of the south circle read off the design document: the
    mirror image of the north rule on the south offsets, on the opposite,
    negative, lateral side. *)
Definition circle_south_exits_opposite_side {platform : Collaborators} (s : FigureEight)
    (rel : Vector2f) (switch_distance_normalized : float)
    (points : FigureEightPatternPoints) : bool :=
  circle_exit_rule (circle_south_passed s rel points)
    (norm (vsub (normalized_south_exit_offset points) rel) <? switch_distance_normalized)
    (v0 rel >? v0 (normalized_south_exit_offset points))
    (v1 rel <? - FLT_EPSILON).

(** The exit decision of the south circle with the lateral side of the
    north rule. *)
Definition circle_south_exits {platform : Collaborators} (s : FigureEight)
    (rel : Vector2f) (switch_distance_normalized : float)
    (points : FigureEightPatternPoints) : bool :=
  circle_exit_rule (circle_south_passed s rel points)
    (norm (vsub (normalized_south_exit_offset points) rel) <? switch_distance_normalized)
    (v0 rel >? v0 (normalized_south_exit_offset points))
    (v1 rel >? FLT_EPSILON).

(** A field of the setpoint whose change the guard of [initializePattern]
    cannot see: it is the one last applied, or either value is not a
    number. *)
Definition change_unseen (active requested : float) : Prop :=
  active = requested \/ is_nan active = true \/ is_nan requested = true.

(** The point whose proximity ends a segment. *)
Definition exit_point (segment : FigureEightSegment) (points : FigureEightPatternPoints)
  : Vector2f :=
  match segment with
  | SEGMENT_CIRCLE_NORTH => normalized_north_exit_offset points
  | SEGMENT_NORTHEAST_SOUTHWEST => normalized_south_entry_offset points
  | SEGMENT_CIRCLE_SOUTH => normalized_south_exit_offset points
  | SEGMENT_SOUTHEAST_NORTHWEST => normalized_north_entry_offset points
  | SEGMENT_UNDEFINED => mkVector2f zero zero
  end.

(** The vehicle is within the switch distance of the exit point of the
    current segment, in the normalised frame of the given parameters. *)
Definition near_exit_point {platform : Collaborators} (s : FigureEight) (pos : Vector2f)
    (parameters : FigureEightPatternParameters) (use_npfg : bool)
    (points : FigureEightPatternPoints) : bool :=
  norm (vsub (exit_point (_current_segment s) points)
             (calculatePositionToCenterNormalizedRotated pos parameters))
  <? get_switch_distance_normalized s parameters use_npfg.

(** At a tick, the vehicle is beyond the centre of the given circle along
    the major axis, which is what sets the passed-centre flag. *)
Definition beyond_circle_centre {platform : Collaborators}
    (segment : FigureEightSegment) (nav_loiter_rad : float) (t : Tick) : bool :=
  let parameters := sanitize nav_loiter_rad (tick_parameters t) in
  let rel := calculatePositionToCenterNormalizedRotated (tick_pos t) parameters in
  let points := calculateFigureEightPoints parameters in
  match segment with
  | SEGMENT_CIRCLE_NORTH => v0 rel >? v0 (normalized_north_circle_offset points)
  | SEGMENT_CIRCLE_SOUTH => v0 rel <? v0 (normalized_south_circle_offset points)
  | _ => true
  end.

(** The shape of the exit rule of a line segment: the vehicle is within the
    switch distance of the entry point of the next circle, or beyond that
    point along the major axis on the given lateral side, or outside the
    major radius. *)
Definition line_exit_rule (near_exit beyond_entry lateral_side overshoot : bool) : bool :=
  near_exit || (beyond_entry && lateral_side) || overshoot.

(** The guidance object a call is made on. *)
Definition is_npfg_call (c : DelegateCall) : bool :=
  match c with
  | NpfgSwitchDistance _ | NpfgSetAirspeedNom _ | NpfgSetAirspeedMax _
  | NpfgNavigateLoiter _ _ _ _ _ _ | NpfgNavigateWaypoints _ _ _ _ _
  | NpfgGetRollSetpoint | NpfgGetAirspeedRef => true
  | _ => false
  end.

Definition calls_selected_guidance (use_npfg : bool) (c : DelegateCall) : bool :=
  if use_npfg then is_npfg_call c else negb (is_npfg_call c).


(** A finite number other than zero. *)
Definition nonzero_number (x : float) : bool :=
  match x with
  | S754_finite _ _ _ => true
  | _ => false
  end.

(** The pattern of two circles of radius one half that touch at the pattern
    centre: every entry and exit point is the centre itself, so the two
    lines have no length. *)
Definition touching_circles : FigureEightPatternPoints :=
  let half := of_scaled 1 (-1) in
  mkPoints (mkVector2f half zero)
           (mkVector2f zero (- zero))
           (mkVector2f zero zero)
           (mkVector2f (- half) zero)
           (mkVector2f zero (- zero))
           (mkVector2f zero zero).

(** The kind of an operation of the owner. *)
Definition is_reset (op : Operation) : bool :=
  match op with
  | OpResetPattern => true
  | _ => false
  end.

Definition is_update (op : Operation) : bool :=
  match op with
  | OpUpdateSetpoint _ => true
  | _ => false
  end.

Definition is_initialize (op : Operation) : bool :=
  match op with
  | OpInitializePattern _ _ _ => true
  | _ => false
  end.

(** ** A reference platform

    A stand-in for the collaborators, used to run the controller on concrete
    inputs.  The guidance objects answer a fixed switch distance and a zero
    roll; the pattern is flown unrotated, so the two rotation routines are
    the rotation by a zero yaw angle, the identity. *)

Record StubGuidance : Type := mkStubGuidance {
  stub_switch_distance : float ;
  stub_airspeed_ref : float
}.

#[export] Instance reference_platform : Collaborators := {|
  NPFG := StubGuidance ;
  ECL_L1_Pos_Controller := StubGuidance ;
  transform := fun v _ => v ;
  norm := fun v => sqrtf (v0 v * v0 v + v1 v * v1 v) ;
  dot := fun a b => v0 a * v0 b + v1 a * v1 b ;
  yaw_rotation_apply := fun _ v => v ;
  switchDistance := fun n _ => stub_switch_distance n ;
  setAirspeedNom := fun n a => mkStubGuidance (stub_switch_distance n) a ;
  setAirspeedMax := fun n _ => n ;
  navigateLoiter := fun n _ _ _ _ _ _ => n ;
  navigateWaypoints := fun n _ _ _ _ _ => n ;
  getRollSetpoint := fun _ => zero ;
  getAirspeedRef := fun n => stub_airspeed_ref n ;
  switch_distance := fun l _ => stub_switch_distance l ;
  navigate_loiter := fun l _ _ _ _ _ => l ;
  navigate_waypoints := fun l _ _ _ _ => l ;
  get_roll_setpoint := fun _ => zero
|}.

(** The scenario of the design document: major radius 100, minor radius 40,
    centre at the origin, orientation 0, direction flag unset (clockwise). *)
Definition scenario_parameters : FigureEightPatternParameters :=
  mkParameters (mkVector2f zero zero) (of_Z 100) (of_Z 40) zero false.

Definition scenario_guidance : StubGuidance := mkStubGuidance (of_Z 10) (of_Z 15).

Definition scenario_state (segment : FigureEightSegment) (passed : bool)
  : @FigureEight reference_platform :=
  mkFigureEight (platform := reference_platform)
    scenario_guidance scenario_guidance (mkVector2f zero zero) one
    (of_Z 80) (of_Z 25) scenario_parameters segment passed zero zero [].

(** * Proof automation *)

(** Case analysis on the condition of a conditional of the goal. *)
Ltac case_if :=
  match goal with
  | |- context [if ?c then _ else _] => destruct c
  end.

(** Case analysis on which of the two radii of [p] are finite. *)
Ltac by_finiteness p :=
  unfold sanitize, substitute_non_finite;
  destruct (PX4_ISFINITE (loiter_minor_radius p)), (PX4_ISFINITE (loiter_radius p));
  reflexivity.

(** * Properties of binary32 arithmetic *)

Lemma eq_same (x y : float) : x = y -> x == y.
Proof. intros ->; reflexivity. Qed.

Lemma opp_involutive (x : float) : - - x = x.
Proof. destruct x as [s|s| |s m e]; simpl; now rewrite ?negb_involutive. Qed.

(** Rounding does not look at the sign: it only copies it to the result. *)
Lemma binary_round_aux_opp (s : bool) (m e : Z) (l : location) :
  binary_round_aux prec emax (negb s) m e l = - binary_round_aux prec emax s m e l.
Proof.
  unfold binary_round_aux.
  destruct (shr_fexp prec emax m e l) as [mrs' e'].
  destruct (shr_fexp prec emax _ e' loc_Exact) as [mrs'' e''].
  destruct (shr_m mrs''); cbn [opp SFopp]; try reflexivity.
  now destruct (Z.leb e'' (emax - prec)).
Qed.

Lemma binary_round_opp (s : bool) (m : positive) (e : Z) :
  binary_round prec emax (negb s) m e = - binary_round prec emax s m e.
Proof.
  unfold binary_round.
  destruct (shl_align m e _) as [mz ez].
  apply binary_round_aux_opp.
Qed.

Lemma binary_normalize_opp (z e : Z) :
  binary_normalize prec emax (- z) e false == - binary_normalize prec emax z e false.
Proof.
  destruct z as [|m|m]; simpl.
  - reflexivity.
  - apply eq_same, (binary_round_opp false).
  - apply eq_same. rewrite (binary_round_opp false), opp_involutive. reflexivity.
Qed.

Lemma cond_Zopp_negb (s : bool) (z : Z) : cond_Zopp (negb s) z = (- cond_Zopp s z)%Z.
Proof. destruct s; simpl; lia. Qed.

(** Subtraction is the addition of the opposite. *)
Lemma sub_add_opp (x y : float) : x - y = x + - y.
Proof.
  unfold sub, add.
  destruct x as [sx|sx| |sx mx ex], y as [sy|sy| |sy my ey];
    try reflexivity;
    destruct sx, sy; reflexivity.
Qed.

(** Negating both operands negates the sum, but for the sign of a zero
    sum: [1 - 1] is [+0] and so is [-1 + 1]. *)
Lemma opp_add (x y : float) : - x + - y == - (x + y).
Proof.
  unfold add.
  destruct x as [sx|sx| |sx mx ex], y as [sy|sy| |sy my ey];
    try reflexivity;
    try (destruct sx, sy; reflexivity).
  cbn [SFadd opp SFopp].
  rewrite !cond_Zopp_negb, <- Z.opp_add_distr.
  apply binary_normalize_opp.
Qed.

Lemma opp_sub (x y : float) : - x + y == - (x - y).
Proof.
  rewrite sub_add_opp.
  rewrite <- (opp_involutive y) at 1.
  apply opp_add.
Qed.

Lemma mul_opp_l (x y : float) : (- x) * y = - (x * y).
Proof.
  unfold mul.
  destruct x as [sx|sx| |sx mx ex], y as [sy|sy| |sy my ey];
    try reflexivity;
    try (destruct sx, sy; reflexivity).
  cbn [SFmul opp SFopp].
  rewrite <- binary_round_aux_opp. now destruct sx, sy.
Qed.

(** *** Comparisons *)

Lemma compare_refl (x : float) : is_nan x = false -> SFcompare x x = Some Eq.
Proof.
  destruct x as [s|s| |s m e]; simpl; intros H; try discriminate H;
    try (destruct s; reflexivity).
  rewrite Z.compare_refl, Pos.compare_cont_refl. now destruct s.
Qed.

Lemma compare_Eq_same (x y : float) : SFcompare x y = Some Eq -> x == y.
Proof.
  destruct x as [sx|sx| |sx mx ex], y as [sy|sy| |sy my ey]; simpl;
    intros H; try discriminate H; try reflexivity;
    try (destruct sx; discriminate H);
    try (destruct sy; discriminate H);
    try (destruct sx, sy; try discriminate H; reflexivity).
  change (Pos.compare_cont Eq mx my) with (Pos.compare mx my) in H.
  destruct sx, sy; try discriminate H;
    destruct (Z.compare_spec ex ey) as [->| |]; try discriminate H;
    destruct (Pos.compare_spec mx my) as [->| |];
    try discriminate H; reflexivity.
Qed.

Lemma leb_refl (x : float) : is_nan x = false -> (x <=? x) = true.
Proof. intros H. unfold leb, SFleb. now rewrite compare_refl. Qed.

Lemma ltb_leb (x y : float) : (x <? y) = true -> (x <=? y) = true.
Proof. unfold ltb, leb, SFltb, SFleb. now destruct (SFcompare x y) as [[| |]|]. Qed.

Lemma leb_not_ltb_same (x y : float) :
  (x <=? y) = true -> (x <? y) = false -> x == y.
Proof.
  unfold ltb, leb, SFltb, SFleb. intros Hle Hlt. apply compare_Eq_same.
  now destruct (SFcompare x y) as [[| |]|].
Qed.

Lemma same_eqb (x y : float) : x == y -> eqb x y = negb (is_nan x).
Proof.
  unfold same, eqb, SFeqb.
  destruct x as [sx|sx| |sx mx ex], y as [sy|sy| |sy my ey]; simpl;
    intros H; try discriminate H; try reflexivity; inversion H; subst.
  - now destruct sy.
  - rewrite Z.compare_refl, Pos.compare_cont_refl. now destruct sy.
Qed.

Lemma zero_ltb (x : float) : (zero <? x) = positive_float x.
Proof. destruct x as [s|s| |s m e]; try reflexivity; now destruct s. Qed.

Lemma positive_leb (x y : float) :
  positive_float x = true -> (x <=? y) = true -> positive_float y = true.
Proof.
  unfold leb, SFleb.
  destruct x as [sx|sx| |sx mx ex], y as [sy|sy| |sy my ey]; simpl;
    try discriminate; destruct sx; try discriminate; try destruct sy;
    try discriminate; reflexivity.
Qed.

(** *** Rounding never invents a NaN *)

Lemma shr_1_nonneg (mrs : shr_record) :
  (0 <= shr_m mrs)%Z -> (0 <= shr_m (shr_1 mrs))%Z.
Proof.
  destruct mrs as [m r t]. destruct m as [|p|p]; simpl; intros H; try lia.
  - destruct p; simpl; lia.
Qed.

Lemma iter_shr_1_nonneg (p : positive) :
  forall mrs, (0 <= shr_m mrs)%Z -> (0 <= shr_m (iter_pos shr_1 p mrs))%Z.
Proof.
  induction p as [p IH|p IH|]; intros mrs H; simpl.
  - apply IH, IH, shr_1_nonneg, H.
  - apply IH, IH, H.
  - apply shr_1_nonneg, H.
Qed.

Lemma shr_fexp_nonneg (m e : Z) (l : location) :
  (0 <= m)%Z -> (0 <= shr_m (fst (shr_fexp prec emax m e l)))%Z.
Proof.
  intros H. unfold shr_fexp, shr.
  assert (H0 : (0 <= shr_m (shr_record_of_loc m l))%Z).
  { destruct l as [|[| |]]; exact H. }
  destruct (fexp prec emax (Zdigits2 m + e) - e)%Z; simpl; trivial.
  now apply iter_shr_1_nonneg.
Qed.

Lemma round_nearest_even_nonneg (m : Z) (l : location) :
  (0 <= m)%Z -> (0 <= round_nearest_even m l)%Z.
Proof.
  intros H. destruct l as [|[| |]]; simpl; try lia.
  destruct (Z.even m); lia.
Qed.

Lemma binary_round_aux_not_nan (s : bool) (m e : Z) (l : location) :
  (0 <= m)%Z -> is_nan (binary_round_aux prec emax s m e l) = false.
Proof.
  intros H. unfold binary_round_aux.
  pose proof (shr_fexp_nonneg e l H) as H1.
  destruct (shr_fexp prec emax m e l) as [mrs' e']. simpl in H1.
  pose proof (shr_fexp_nonneg e' loc_Exact
                (round_nearest_even_nonneg (loc_of_shr_record mrs') H1)) as H2.
  destruct (shr_fexp prec emax _ e' loc_Exact) as [mrs'' e'']. simpl in H2.
  destruct (shr_m mrs'') as [|q|q]; try reflexivity.
  - now destruct (Z.leb e'' (emax - prec)).
  - lia.
Qed.

(** A product of numbers is a number unless it is zero times infinity. *)
Lemma mul_finite_not_nan (x y : float) :
  PX4_ISFINITE x = true -> is_nan y = false -> positive_float x = true ->
  is_nan (x * y) = false.
Proof.
  unfold mul.
  destruct x as [sx|sx| |sx mx ex], y as [sy|sy| |sy my ey]; simpl;
    try discriminate; try reflexivity.
  intros _ _ _. apply binary_round_aux_not_nan. lia.
Qed.

Lemma div_not_nan_divisor (x y : float) : is_nan (x / y) = false -> is_nan y = false.
Proof. destruct x, y; simpl; trivial. Qed.

Lemma ltb_not_nan_l (x y : float) : (x <? y) = true -> is_nan x = false.
Proof. destruct x; trivial. discriminate. Qed.

Lemma ltb_not_nan_r (x y : float) : (x <? y) = true -> is_nan y = false.
Proof. destruct y; trivial. destruct x; discriminate. Qed.

(** *** Doubling is exact

    In binary32 the product of 2 and a well-formed number has the same
    mantissa and the next exponent (or is infinite when that exponent is
    out of range); a subnormal number doubles within its exponent. *)
Lemma mul_two_finite (s : bool) (m : positive) (e : Z) :
  bounded prec emax m e = true ->
  of_Z 2 * S754_finite s m e =
    if (Zpos (digits2_pos m) =? 24)%Z
    then (if (e + 1 <=? 104)%Z then S754_finite s m (e + 1) else S754_infinity s)
    else S754_finite s (m~0) e.
Proof.
  unfold bounded, canonical_mantissa, fexp, emin, prec, emax. intros H.
  apply andb_prop in H. destruct H as [Hc He].
  apply Z.eqb_eq in Hc. apply Z.leb_le in He.
  change (of_Z 2) with (S754_finite false 8388608 (-22)).
  unfold mul, prec, emax. cbn [SFmul xorb Pos.mul].
  unfold binary_round_aux, shr_fexp, fexp, emin.
  cbn [Zdigits2 digits2_pos shr_record_of_loc].
  rewrite !Pos2Z.inj_succ.
  set (d := Zpos (digits2_pos m)) in *.
  assert (Hd : (0 < d)%Z) by (unfold d; lia).
  destruct (Z.eqb_spec d 24) as [E|E].
  - replace (Z.max _ _ - (-22 + e))%Z with 23%Z by lia.
    cbn [shr iter_pos shr_1 shr_m shr_r shr_s orb loc_of_shr_record
         round_nearest_even fst snd Zdigits2].
    fold d.
    replace (Z.max _ _ - _)%Z with 0%Z by lia.
    cbn [shr shr_m]. replace (-22 + e + 23)%Z with (e + 1)%Z by lia. reflexivity.
  - replace (Z.max _ _ - (-22 + e))%Z with 22%Z by lia.
    cbn [shr iter_pos shr_1 shr_m shr_r shr_s orb loc_of_shr_record
         round_nearest_even fst snd Zdigits2 digits2_pos].
    rewrite Pos2Z.inj_succ. fold d.
    replace (Z.max _ _ - _)%Z with 0%Z by lia.
    cbn [shr shr_m]. replace (-22 + e + 22)%Z with e by lia.
    replace (e <=? 128 - 24)%Z with true by (symmetry; apply Z.leb_le; lia).
    reflexivity.
Qed.

Lemma mul_two_positive (x : float) :
  valid x = true -> positive_float x = true -> positive_float (of_Z 2 * x) = true.
Proof.
  destruct x as [s|s| |s m e]; try discriminate.
  - destruct s; try discriminate. reflexivity.
  - intros Hv Hp. destruct s; try discriminate.
    unfold valid, valid_binary in Hv. rewrite (mul_two_finite _ _ _ Hv).
    destruct (_ =? 24)%Z; [destruct (_ <=? 104)%Z|]; reflexivity.
Qed.

Lemma valid_fabsf (x : float) : valid (fabsf x) = valid x.
Proof. now destruct x. Qed.

(** *** Comparisons and negation *)

Lemma compare_opp (x y : float) : SFcompare (- x) (- y) = SFcompare y x.
Proof.
  destruct x as [sx|sx| |sx mx ex], y as [sy|sy| |sy my ey]; simpl;
    try reflexivity; try (destruct sx; reflexivity); try (destruct sy; reflexivity);
    try (destruct sx, sy; reflexivity).
  rewrite (Z.compare_antisym ex ey).
  change (Pos.compare_cont Eq my mx) with (Pos.compare my mx).
  change (Pos.compare_cont Eq mx my) with (Pos.compare mx my).
  rewrite (Pos.compare_antisym mx my).
  destruct sx, sy; simpl; try reflexivity;
    destruct (Z.compare ex ey); simpl; try reflexivity;
    now rewrite ?CompOpp_involutive.
Qed.

Lemma compare_same_l (x x' y : float) : x == x' -> SFcompare x y = SFcompare x' y.
Proof.
  unfold same.
  destruct x as [sx|sx| |sx mx ex], x' as [sx'|sx'| |sx' mx' ex']; simpl;
    intros H; try discriminate H; try reflexivity; now inversion H.
Qed.

Lemma compare_same_r (x y y' : float) : y == y' -> SFcompare x y = SFcompare x y'.
Proof.
  unfold same.
  destruct y as [sy|sy| |sy my ey], y' as [sy'|sy'| |sy' my' ey']; simpl;
    intros H; try discriminate H; try reflexivity; try (now inversion H);
    destruct x; reflexivity.
Qed.

(** [a < x] with [a] the negation of [b] is [-x < b]. *)
Lemma ltb_mirror_l (a b x : float) : a == - b -> (a <? x) = (- x <? b).
Proof.
  intros H. unfold ltb, SFltb. rewrite (compare_same_l x H).
  rewrite <- (opp_involutive x) at 1. now rewrite compare_opp.
Qed.

Lemma ltb_mirror_r (a b x : float) : a == - b -> (x <? a) = (b <? - x).
Proof.
  intros H. unfold ltb, SFltb. rewrite (compare_same_r x H).
  rewrite <- (opp_involutive x) at 1. now rewrite compare_opp.
Qed.

Lemma vsame_veqb (a b : Vector2f) : vsame a b -> veqb a b = negb (vis_nan a).
Proof.
  intros [H0 H1]. unfold veqb, vis_nan.
  rewrite (same_eqb H0), (same_eqb H1). now rewrite negb_orb.
Qed.

(** * Pattern geometry *)

(** C3, as stated, fails: with major radius 100 and minor radius 40 the
    south entry offset is not the negation of the north entry offset, and
    the south exit offset is not the negation of the north exit offset.
    The lateral components have the same sign, where a negation would
    flip it; C's [==] tells them apart as well. *)
Lemma C3_entry_is_not_negated_entry :
  let points := calculateFigureEightPoints scenario_parameters in
  valid_pattern_parameters scenario_parameters = true
  /\ ~ vsame (normalized_south_entry_offset points)
          (vopp (normalized_north_entry_offset points))
  /\ ~ vsame (normalized_south_exit_offset points)
             (vopp (normalized_north_exit_offset points))
  /\ eqb (v1 (normalized_south_entry_offset points))
         (- v1 (normalized_north_entry_offset points)) = false
  /\ eqb (v1 (normalized_south_exit_offset points))
         (- v1 (normalized_north_exit_offset points)) = false.
Proof.
  cbv zeta. repeat split; try (vm_compute; reflexivity);
    intros [_ H]; vm_compute in H; discriminate H.
Qed.

Lemma south_offsets_are_negated_north_offsets (parameters : FigureEightPatternParameters) :
  let points := calculateFigureEightPoints parameters in
  vsame (normalized_south_circle_offset points)
        (vopp (normalized_north_circle_offset points))
  /\ vsame (normalized_south_entry_offset points)
           (vopp (normalized_north_exit_offset points))
  /\ vsame (normalized_south_exit_offset points)
           (vopp (normalized_north_entry_offset points)).
Proof.
  cbv zeta. unfold calculateFigureEightPoints, vsame, vopp; cbn [v0 v1
    normalized_north_circle_offset normalized_north_entry_offset
    normalized_north_exit_offset normalized_south_circle_offset
    normalized_south_entry_offset normalized_south_exit_offset].
  repeat split; try apply opp_sub; try reflexivity.
  - apply eq_same, mul_opp_l.
  - apply eq_same. now rewrite mul_opp_l, opp_involutive.
Qed.

(** C3, amended: for every parameter set the pattern points are symmetric
    under the half turn about the origin, which maps the north circle
    centre to the south circle centre, the north exit to the south entry
    and the north entry to the south exit.  Each south offset is the
    negation of that north offset, as floats compared up to the sign of a
    zero; where the components are numbers, C's [==] holds between them. *)
Theorem C3_points_half_turn_symmetric (parameters : FigureEightPatternParameters) :
  let points := calculateFigureEightPoints parameters in
  (vsame (normalized_south_circle_offset points)
         (vopp (normalized_north_circle_offset points))
   /\ vsame (normalized_south_entry_offset points)
            (vopp (normalized_north_exit_offset points))
   /\ vsame (normalized_south_exit_offset points)
            (vopp (normalized_north_entry_offset points)))
  /\ veqb (normalized_south_circle_offset points)
          (vopp (normalized_north_circle_offset points))
     = negb (vis_nan (normalized_south_circle_offset points))
  /\ veqb (normalized_south_entry_offset points)
          (vopp (normalized_north_exit_offset points))
     = negb (vis_nan (normalized_south_entry_offset points))
  /\ veqb (normalized_south_exit_offset points)
          (vopp (normalized_north_entry_offset points))
     = negb (vis_nan (normalized_south_exit_offset points)).
Proof.
  cbv zeta.
  destruct (south_offsets_are_negated_north_offsets parameters) as (Hc & Hn & Hx).
  split; [exact (conj Hc (conj Hn Hx))|].
  split; [|split]; apply vsame_veqb; assumption.
Qed.

(** C6, as stated, fails in its numeric instance: in binary32 arithmetic the
    scaled north circle offset for major radius 100 and minor radius 40 is
    not (60, 0).  The quotient 40 / 100 rounds to [13421773 * 2^-25]; its
    difference from 1, [20132659 * 2^-25], needs 25 bits and rounds (a tie,
    to the even mantissa) to [10066330 * 2^-24]; the product with 100,
    [1006633000 * 2^-24 = 15728640.625 * 2^-18], rounds to
    [15728641 * 2^-18], which is [60 + 2^-18]. *)
Lemma C6_scaled_offset_is_not_60 :
  normalized_minor_radius scenario_parameters = of_scaled 13421773 (-25)
  /\ v0 (normalized_north_circle_offset (calculateFigureEightPoints scenario_parameters))
     = of_scaled 10066330 (-24)
  /\ north_circle_world_offset scenario_parameters
     = mkVector2f (of_scaled 15728641 (-18)) zero
  /\ of_Z 60 = of_scaled 15728640 (-18)
  /\ north_circle_world_offset scenario_parameters <> mkVector2f (of_Z 60) zero
  /\ eqb (v0 (north_circle_world_offset scenario_parameters)) (of_Z 60) = false.
Proof.
  repeat split; try (vm_compute; reflexivity).
  intros H. vm_compute in H. discriminate H.
Qed.

(** C6, amended: with minor radius [m], major radius [M] and [r = m / M],
    the points are built from [cos = m / (M - m)] and
    [sin = sqrt (1 - cos * cos)]: the circle centres are [(1 - r, 0)] and
    [(-1 + r, 0)], the latter the negation of the former, and the entry and
    exit points are [(1 - r (1 + cos), -/+ r sin)] north and
    [(-1 + r (1 + cos), -/+ r sin)] south.  For major radius 100 and minor
    radius 40 the cosine is the binary32 quotient 40 / 60, the sine is
    [12504998 * 2^-24] (0.745356), and the north circle offset scaled by the
    major radius is [(60 + 2^-18, 0)]: it is (60, 0) only up to one unit in
    the last place. *)
Theorem C6_points_from_tangent_angle (parameters : FigureEightPatternParameters) :
  let m := loiter_minor_radius parameters in
  let M := loiter_radius parameters in
  let r := m / M * one in
  let c := m / (M - m) in
  let sn := sqrtf (one - c * c) in
  calculateFigureEightPoints parameters
  = mkPoints (mkVector2f (one - r) zero)
             (mkVector2f (one - r * (one + c)) ((- r) * sn))
             (mkVector2f (one - r * (one + c)) (r * sn))
             (mkVector2f (- one + r) zero)
             (mkVector2f (- one + r * (one + c)) ((- r) * sn))
             (mkVector2f (- one + r * (one + c)) (r * sn))
  /\ vsame (normalized_south_circle_offset (calculateFigureEightPoints parameters))
           (vopp (mkVector2f (one - r) zero))
  /\ cos_transition_angle scenario_parameters = of_Z 40 / of_Z 60
  /\ sin_transition_angle scenario_parameters = of_scaled 12504998 (-24)
  /\ north_circle_world_offset scenario_parameters
     = mkVector2f (of_Z 60 + of_scaled 1 (-18)) zero
  /\ v0 (north_circle_world_offset scenario_parameters) - of_Z 60 = of_scaled 1 (-18).
Proof.
  cbv zeta. split; [reflexivity|].
  split; [apply (south_offsets_are_negated_north_offsets parameters)|].
  repeat split; vm_compute; reflexivity.
Qed.

(** * Orientation *)

(** C9: for the same orientation, the rotation angle of a counter-clockwise
    pattern is the rotation angle of the clockwise pattern plus pi (the
    single-precision constant [M_PI_F]; the sum is not reduced modulo
    2 pi), and the rotation angle of a clockwise pattern is its
    orientation. *)
Theorem C9_rotation_angle_direction (center : Vector2f) (major minor orientation : float) :
  calculateRotationAngle (mkParameters center major minor orientation true)
  = calculateRotationAngle (mkParameters center major minor orientation false) + M_PI_F
  /\ calculateRotationAngle (mkParameters center major minor orientation false)
     = orientation.
Proof. split; reflexivity. Qed.

(** * Sanitisation of the parameters *)

Lemma math_max_lower_bound (a b : float) :
  is_nan b = false -> (b <=? math_max a b) = true.
Proof.
  intros Hb. unfold math_max, gtb. destruct (SFltb b a) eqn:E.
  - now apply ltb_leb.
  - now apply leb_refl.
Qed.

Lemma math_max_keeps (a b : float) : (b <=? a) = true -> math_max a b == a.
Proof.
  intros H. unfold math_max, gtb. destruct (SFltb b a) eqn:E.
  - reflexivity.
  - now apply leb_not_ltb_same.
Qed.

Lemma sanitize_minor (nav_loiter_rad : float) (parameters : FigureEightPatternParameters) :
  loiter_minor_radius (sanitize nav_loiter_rad parameters)
  = loiter_minor_radius (substitute_non_finite nav_loiter_rad parameters).
Proof. reflexivity. Qed.

(** C4: when the ratio of the major to the minor radius, taken after the
    substitution of non-finite radii, is below 2 (as a quotient, or as the
    comparison of the major radius with twice the minor radius that the
    clamp makes), the sanitised major radius is at least twice the
    sanitised minor radius; when the major radius is already at least twice
    the minor radius, the clamp leaves it as it is (the same float, but
    possibly for the sign of a zero), and a finite major radius is the
    caller's. *)
Theorem C4_sanitize_enforces_ratio (nav_loiter_rad : float)
    (parameters : FigureEightPatternParameters) :
  let substituted := substitute_non_finite nav_loiter_rad parameters in
  let adjusted := sanitize nav_loiter_rad parameters in
  ((loiter_radius substituted / loiter_minor_radius substituted
      <? MINIMAL_FEASIBLE_MAJOR_TO_MINOR_AXIS_RATIO) = true
   \/ (loiter_radius substituted
       <? MINIMAL_FEASIBLE_MAJOR_TO_MINOR_AXIS_RATIO * loiter_minor_radius substituted)
      = true ->
   (MINIMAL_FEASIBLE_MAJOR_TO_MINOR_AXIS_RATIO * loiter_minor_radius adjusted
      <=? loiter_radius adjusted) = true)
  /\ ((MINIMAL_FEASIBLE_MAJOR_TO_MINOR_AXIS_RATIO * loiter_minor_radius substituted
         <=? loiter_radius substituted) = true ->
      loiter_radius adjusted == loiter_radius substituted)
  /\ (PX4_ISFINITE (loiter_radius parameters) = true ->
      loiter_radius substituted = loiter_radius parameters).
Proof.
  cbv zeta. repeat split.
  - intros H. unfold sanitize; cbn [loiter_radius loiter_minor_radius].
    apply math_max_lower_bound. destruct H as [H|H].
    + apply mul_finite_not_nan; try reflexivity.
      eapply div_not_nan_divisor, ltb_not_nan_l, H.
    + eapply ltb_not_nan_r, H.
  - intros H. unfold sanitize; cbn [loiter_radius loiter_minor_radius].
    now apply math_max_keeps.
  - intros H. unfold substitute_non_finite. rewrite H; cbn [negb].
    now destruct (negb (PX4_ISFINITE (loiter_minor_radius parameters))).
Qed.

(** An infeasible request (major 100, minor 60) and a feasible one (major
    100, minor 40). *)
Lemma C4_sanitize_enforces_ratio_witness :
  let infeasible := mkParameters (mkVector2f zero zero) (of_Z 100) (of_Z 60) zero false in
  (MINIMAL_FEASIBLE_MAJOR_TO_MINOR_AXIS_RATIO
     * loiter_minor_radius (sanitize (of_Z 80) infeasible)
     <=? loiter_radius (sanitize (of_Z 80) infeasible)) = true
  /\ loiter_radius (sanitize (of_Z 80) scenario_parameters)
     == loiter_radius (substitute_non_finite (of_Z 80) scenario_parameters)
  /\ loiter_radius (substitute_non_finite (of_Z 80) scenario_parameters)
     = loiter_radius scenario_parameters.
Proof.
  cbv zeta. split; [|split].
  - apply (C4_sanitize_enforces_ratio (of_Z 80)
             (mkParameters (mkVector2f zero zero) (of_Z 100) (of_Z 60) zero false)).
    left. vm_compute; reflexivity.
  - apply (C4_sanitize_enforces_ratio (of_Z 80) scenario_parameters).
    vm_compute; reflexivity.
  - apply (C4_sanitize_enforces_ratio (of_Z 80) scenario_parameters).
    vm_compute; reflexivity.
Defined.

Lemma positive_not_nan (x : float) : positive_float x = true -> is_nan x = false.
Proof. destruct x; trivial. discriminate. Qed.

Lemma substituted_minor_valid (nav_loiter_rad : float)
    (parameters : FigureEightPatternParameters) :
  valid (loiter_minor_radius parameters) = true ->
  valid nav_loiter_rad = true ->
  valid (loiter_minor_radius (substitute_non_finite nav_loiter_rad parameters)) = true.
Proof.
  intros Hm Hd. unfold substitute_non_finite.
  destruct (PX4_ISFINITE (loiter_minor_radius parameters)),
           (PX4_ISFINITE (loiter_radius parameters));
    cbn [negb loiter_minor_radius]; trivial; now rewrite valid_fabsf.
Qed.

(** C5, as stated, fails in its last part: finite radii are passed on as
    they are, whatever their sign.  With both radii zero nothing is
    substituted or clamped and the pattern points are not numbers at all;
    with a negative minor radius the parameters are passed on unchanged and
    break the invariant of the pattern. *)
Lemma C5_finite_radii_pass_unchecked :
  let degenerate := mkParameters (mkVector2f zero zero) zero zero zero false in
  let negative := mkParameters (mkVector2f zero zero) (of_Z 100) (of_Z (-40)) zero false in
  (PX4_ISFINITE (loiter_radius degenerate) = true
   /\ PX4_ISFINITE (loiter_minor_radius degenerate) = true
   /\ sanitize (of_Z 80) degenerate = degenerate
   /\ valid_pattern_parameters (sanitize (of_Z 80) degenerate) = false
   /\ normalized_north_circle_offset
        (calculateFigureEightPoints (sanitize (of_Z 80) degenerate))
      = mkVector2f S754_nan zero)
  /\ (sanitize (of_Z 80) negative = negative
      /\ valid_pattern_parameters (sanitize (of_Z 80) negative) = false).
Proof. cbv zeta. repeat split; vm_compute; reflexivity. Qed.

(** C5, amended: [updateSetpoint] is a total function of its inputs that
    works on the sanitised parameters.  A minor radius that is not finite
    is replaced by the absolute value of the configured loiter radius; a
    major radius that is not finite is replaced by 2.5 times the minor
    radius so obtained, and the direction is then counter-clockwise exactly
    when the configured loiter radius is negative; the major radius is then
    clamped from below by twice the minor radius.  Whenever the minor
    radius so obtained is positive (for well-formed binary32 inputs), the
    sanitised parameters satisfy the invariant of the pattern: both radii
    positive and the major radius at least twice the minor radius. *)
Theorem C5_sanitize_substitutes_defaults {platform : Collaborators}
    (s : FigureEight) (curr_pos_local ground_speed : Vector2f)
    (parameters : FigureEightPatternParameters) (target_airspeed : float)
    (use_npfg : bool) :
  let nav_loiter_rad := _param_nav_loiter_rad s in
  let substituted := substitute_non_finite nav_loiter_rad parameters in
  let adjusted := sanitize nav_loiter_rad parameters in
  updateSetpoint s curr_pos_local ground_speed parameters target_airspeed use_npfg
  = applyControl
      (updateSegment s curr_pos_local adjusted use_npfg
         (calculateFigureEightPoints adjusted))
      curr_pos_local ground_speed adjusted target_airspeed use_npfg
      (calculateFigureEightPoints adjusted)
  /\ loiter_minor_radius adjusted
     = (if PX4_ISFINITE (loiter_minor_radius parameters)
        then loiter_minor_radius parameters
        else fabsf nav_loiter_rad)
  /\ loiter_radius substituted
     = (if PX4_ISFINITE (loiter_radius parameters)
        then loiter_radius parameters
        else DEFAULT_MAJOR_TO_MINOR_AXIS_RATIO * loiter_minor_radius adjusted)
  /\ loiter_direction_counter_clockwise adjusted
     = (if PX4_ISFINITE (loiter_radius parameters)
        then loiter_direction_counter_clockwise parameters
        else nav_loiter_rad <? zero)
  /\ loiter_radius adjusted
     = math_max (loiter_radius substituted)
         (MINIMAL_FEASIBLE_MAJOR_TO_MINOR_AXIS_RATIO * loiter_minor_radius adjusted)
  /\ center_pos_local adjusted = center_pos_local parameters
  /\ loiter_orientation adjusted = loiter_orientation parameters
  /\ (valid (loiter_minor_radius parameters) = true ->
      valid nav_loiter_rad = true ->
      (zero <? loiter_minor_radius adjusted) = true ->
      valid_pattern_parameters adjusted = true).
Proof.
  cbv zeta.
  split; [reflexivity|].
  do 3 (split; [by_finiteness parameters|]).
  split; [reflexivity|].
  do 2 (split; [by_finiteness parameters|]).
  intros Hm Hd Hpos.
  pose proof (@substituted_minor_valid _ parameters Hm Hd) as Hv.
  rewrite <- sanitize_minor in Hv.
  rewrite zero_ltb in Hpos.
  pose proof (@mul_two_positive _ Hv Hpos) as H2.
  unfold valid_pattern_parameters.
  assert (Hle : (MINIMAL_FEASIBLE_MAJOR_TO_MINOR_AXIS_RATIO
                   * loiter_minor_radius (sanitize (_param_nav_loiter_rad s) parameters)
                   <=? loiter_radius (sanitize (_param_nav_loiter_rad s) parameters))
                = true).
  { unfold sanitize at 2; cbn [loiter_radius].
    apply math_max_lower_bound, positive_not_nan, H2. }
  rewrite Hle, !zero_ltb, Hpos, (@positive_leb _ _ H2 Hle). reflexivity.
Qed.

(** The caller sends no usable radii (both NaN) while the configured loiter
    radius is -80: the pattern flown has minor radius 80, major radius 200
    and is counter-clockwise. *)
Lemma C5_sanitize_substitutes_defaults_witness :
  let s := mkFigureEight (platform := reference_platform)
             scenario_guidance scenario_guidance (mkVector2f zero zero) one
             (of_Z (-80)) (of_Z 25) scenario_parameters SEGMENT_UNDEFINED false
             zero zero [] in
  let parameters := mkParameters (mkVector2f zero zero) S754_nan S754_nan zero false in
  sanitize (_param_nav_loiter_rad s) parameters
  = mkParameters (mkVector2f zero zero) (of_Z 200) (of_Z 80) zero true
  /\ valid_pattern_parameters (sanitize (_param_nav_loiter_rad s) parameters) = true.
Proof.
  cbv zeta. split; [vm_compute; reflexivity|].
  apply (C5_sanitize_substitutes_defaults
           (mkFigureEight (platform := reference_platform)
             scenario_guidance scenario_guidance (mkVector2f zero zero) one
             (of_Z (-80)) (of_Z 25) scenario_parameters SEGMENT_UNDEFINED false
             zero zero [])
           (mkVector2f zero zero) (mkVector2f zero zero)
           (mkParameters (mkVector2f zero zero) S754_nan S754_nan zero false)
           zero true); vm_compute; reflexivity.
Defined.

(** * Segment state machine *)

Section StateMachine.

Context {platform : Collaborators}.

(** *** What the control dispatch leaves alone *)

Lemma applyCircle_frame (s : FigureEight) ccw offset pos gs parameters airspeed use_npfg :
  let s' := applyCircle s ccw offset pos gs parameters airspeed use_npfg in
  _current_segment s' = _current_segment s
  /\ _pos_passed_circle_center_along_major_axis s'
     = _pos_passed_circle_center_along_major_axis s
  /\ _active_parameters s' = _active_parameters s.
Proof. unfold applyCircle. destruct use_npfg; repeat split. Qed.

Lemma applyLine_frame (s : FigureEight) line_start line_end pos gs parameters airspeed
    use_npfg :
  let s' := applyLine s line_start line_end pos gs parameters airspeed use_npfg in
  _current_segment s' = _current_segment s
  /\ _pos_passed_circle_center_along_major_axis s'
     = _pos_passed_circle_center_along_major_axis s
  /\ _active_parameters s' = _active_parameters s.
Proof. unfold applyLine. destruct use_npfg; repeat split. Qed.

Lemma applyControl_frame (s : FigureEight) pos gs parameters airspeed use_npfg points :
  let s' := applyControl s pos gs parameters airspeed use_npfg points in
  _current_segment s' = _current_segment s
  /\ _pos_passed_circle_center_along_major_axis s'
     = _pos_passed_circle_center_along_major_axis s
  /\ _active_parameters s' = _active_parameters s.
Proof.
  unfold applyControl.
  destruct (_current_segment s) eqn:E; cbv zeta;
    rewrite <- ?E; auto using applyCircle_frame, applyLine_frame.
Qed.

Lemma applyControl_undefined (s : FigureEight) pos gs parameters airspeed use_npfg points :
  _current_segment s = SEGMENT_UNDEFINED ->
  applyControl s pos gs parameters airspeed use_npfg points = s.
Proof. unfold applyControl. now intros ->. Qed.

(** *** One step of the segment update *)

Lemma updateSegment_undefined (s : FigureEight) pos parameters use_npfg points :
  _current_segment s = SEGMENT_UNDEFINED ->
  updateSegment s pos parameters use_npfg points
  = record_calls [switch_distance_query use_npfg] s.
Proof. unfold updateSegment. cbn [record_calls _current_segment]. now intros ->. Qed.

Lemma updateSegment_step (s : FigureEight) pos parameters use_npfg points :
  let s' := updateSegment s pos parameters use_npfg points in
  (_current_segment s' = _current_segment s
   \/ _current_segment s' = next_segment (_current_segment s))
  /\ (_current_segment s' = SEGMENT_UNDEFINED <-> _current_segment s = SEGMENT_UNDEFINED).
Proof.
  cbv zeta. unfold updateSegment. cbn [record_calls _current_segment].
  destruct (_current_segment s) eqn:E; cbn [next_segment];
    repeat match goal with
           | |- context [if ?c then _ else _] => destruct c
           end;
    cbn; rewrite ?E;
    (split; [auto | split; intros H; try discriminate H; reflexivity]).
Qed.

Lemma tick_step (s : FigureEight) (t : Tick) :
  (_current_segment (tick s t) = _current_segment s
   \/ _current_segment (tick s t) = next_segment (_current_segment s))
  /\ (_current_segment (tick s t) = SEGMENT_UNDEFINED
      <-> _current_segment s = SEGMENT_UNDEFINED).
Proof.
  unfold tick, updateSetpoint.
  match goal with |- context [applyControl ?u ?a ?b ?c ?d ?e ?f] =>
    destruct (applyControl_frame u a b c d e f) as (-> & _ & _) end.
  apply updateSegment_step.
Qed.

End StateMachine.


Lemma iter_next_segment_succ (k : nat) (segment : FigureEightSegment) :
  Nat.iter k next_segment (next_segment segment)
  = Nat.iter (S k) next_segment segment.
Proof. induction k as [|k IH]; simpl; [reflexivity | now rewrite IH]. Qed.

Lemma run_advances {platform : Collaborators} (ticks : list Tick) :
  forall s : FigureEight,
    exists k : nat,
      (k <= length ticks)%nat
      /\ _current_segment (run s ticks) = Nat.iter k next_segment (_current_segment s).
Proof.
  induction ticks as [|t ticks IH]; intros s.
  - exists 0%nat. split; [apply le_n | reflexivity].
  - destruct (IH (tick s t)) as (k & Hk & Hrun).
    destruct (tick_step s t) as [[E|E] _].
    + exists k. split; [simpl; lia|]. simpl. rewrite <- E. exact Hrun.
    + exists (S k). split; [simpl; lia|].
      rewrite <- iter_next_segment_succ, <- E. exact Hrun.
Qed.

Lemma next_segment_no_return (a b c : FigureEightSegment) :
  b = next_segment a -> b <> a -> c = b \/ c = next_segment b -> c <> a.
Proof.
  intros -> Hne [->| ->]; destruct a; cbn in *; congruence.
Qed.

(** C7: one step of [updateSegment] keeps the segment or moves it to its
    successor in the cycle circle-north, line NE-SW, circle-south, line
    SE-NW, circle-north; it leaves the undefined state undefined and never
    enters it.  The same holds of a whole [updateSetpoint] call, so after
    any number of calls, with any inputs, the segment is the starting one
    advanced along the cycle at most once per call; and a segment that was
    left is not the current one again after the next call: the controller
    cannot oscillate between two segments. *)
Theorem C7_segments_advance_in_cyclic_order {platform : Collaborators}
    (s : FigureEight) (pos : Vector2f) (parameters : FigureEightPatternParameters)
    (use_npfg : bool) (points : FigureEightPatternPoints)
    (t1 t2 : Tick) (ticks : list Tick) :
  let s' := updateSegment s pos parameters use_npfg points in
  (_current_segment s' = _current_segment s
   \/ _current_segment s' = next_segment (_current_segment s))
  /\ (_current_segment s' = SEGMENT_UNDEFINED <-> _current_segment s = SEGMENT_UNDEFINED)
  /\ (_current_segment (tick s t1) = _current_segment s
      \/ _current_segment (tick s t1) = next_segment (_current_segment s))
  /\ (_current_segment (tick s t1) = SEGMENT_UNDEFINED
      <-> _current_segment s = SEGMENT_UNDEFINED)
  /\ (exists k : nat,
         (k <= length ticks)%nat
         /\ _current_segment (run s ticks)
            = Nat.iter k next_segment (_current_segment s))
  /\ ~ (_current_segment (tick s t1) <> _current_segment s
        /\ _current_segment (tick (tick s t1) t2) = _current_segment s).
Proof.
  cbv zeta.
  destruct (updateSegment_step s pos parameters use_npfg points) as [Hstep Hundef].
  destruct (tick_step s t1) as [H1 U1].
  destruct (tick_step (tick s t1) t2) as [H2 _].
  repeat (split; [assumption|]).
  split; [apply run_advances|].
  intros [Hne Hback].
  destruct H1 as [H1|H1]; [contradiction|].
  exact (@next_segment_no_return _ _ _ H1 Hne H2 Hback).
Qed.

(** C10: when the current segment is undefined, [updateSetpoint] changes
    nothing but for one query of the switch distance of the selected
    guidance: the segment stays undefined, the roll and airspeed setpoints,
    the flag and both guidance objects are as before, and no navigation
    request is made. *)
Theorem C10_undefined_segment_is_inert {platform : Collaborators}
    (s : FigureEight) (pos ground_speed : Vector2f)
    (parameters : FigureEightPatternParameters) (target_airspeed : float)
    (use_npfg : bool) :
  _current_segment s = SEGMENT_UNDEFINED ->
  let s' := updateSetpoint s pos ground_speed parameters target_airspeed use_npfg in
  _current_segment s' = SEGMENT_UNDEFINED
  /\ _roll_setpoint s' = _roll_setpoint s
  /\ _indicated_airspeed_setpoint s' = _indicated_airspeed_setpoint s
  /\ _pos_passed_circle_center_along_major_axis s'
     = _pos_passed_circle_center_along_major_axis s
  /\ _active_parameters s' = _active_parameters s
  /\ _npfg s' = _npfg s
  /\ _l1_control s' = _l1_control s
  /\ delegate_calls s' = delegate_calls s ++ [switch_distance_query use_npfg]
  /\ existsb is_navigate [switch_distance_query use_npfg] = false.
Proof.
  intros Hundef. cbv zeta. unfold updateSetpoint.
  rewrite updateSegment_undefined by exact Hundef.
  rewrite applyControl_undefined by exact Hundef.
  cbn [record_calls _current_segment _roll_setpoint _indicated_airspeed_setpoint
       _pos_passed_circle_center_along_major_axis _active_parameters _npfg
       _l1_control delegate_calls].
  repeat (split; [first [assumption | reflexivity]|]).
  now destruct use_npfg.
Qed.

(** A tick on the state left by the constructor and a reset, with the
    scenario parameters and the vehicle north of the pattern. *)
Lemma C10_undefined_segment_is_inert_witness :
  let s := scenario_state SEGMENT_UNDEFINED false in
  let s' := updateSetpoint s (mkVector2f (of_Z 200) zero) (mkVector2f (of_Z 10) zero)
              scenario_parameters (of_Z 15) true in
  _current_segment s' = SEGMENT_UNDEFINED
  /\ _roll_setpoint s' = _roll_setpoint s
  /\ _indicated_airspeed_setpoint s' = _indicated_airspeed_setpoint s
  /\ _pos_passed_circle_center_along_major_axis s'
     = _pos_passed_circle_center_along_major_axis s
  /\ _active_parameters s' = _active_parameters s
  /\ _npfg s' = _npfg s
  /\ _l1_control s' = _l1_control s
  /\ delegate_calls s' = delegate_calls s ++ [switch_distance_query true]
  /\ existsb is_navigate [switch_distance_query true] = false.
Proof.
  exact (C10_undefined_segment_is_inert (scenario_state SEGMENT_UNDEFINED false)
           (mkVector2f (of_Z 200) zero) (mkVector2f (of_Z 10) zero)
           scenario_parameters (of_Z 15) true eq_refl).
Defined.

(** * Reset and initialisation *)

Lemma classifySegment_defined {platform : Collaborators} (pos ground_speed : Vector2f)
    (parameters : FigureEightPatternParameters) :
  classifySegment pos ground_speed parameters <> SEGMENT_UNDEFINED.
Proof.
  unfold classifySegment.
  repeat case_if; discriminate.
Qed.

Lemma initializePattern_after_undefined {platform : Collaborators} (s : FigureEight)
    (pos ground_speed : Vector2f) (parameters : FigureEightPatternParameters) :
  _current_segment s = SEGMENT_UNDEFINED ->
  let s' := initializePattern s pos ground_speed parameters in
  _current_segment s' = classifySegment pos ground_speed parameters
  /\ _active_parameters s' = parameters
  /\ _pos_passed_circle_center_along_major_axis s' = false.
Proof.
  intros H. cbv zeta. unfold initializePattern, pattern_needs_initialization.
  rewrite H. cbn. repeat split.
Qed.

(** C1, as stated, fails: a circle-south segment is active, the pattern is
    reset, and [updateSetpoint] is called with the vehicle north of the
    pattern, where the classification answers circle-north.  The call
    classifies nothing: the segment is undefined after it, and no
    navigation request was made. *)
Lemma C1_update_after_reset_stays_undefined :
  let stale := scenario_state SEGMENT_CIRCLE_SOUTH true in
  let pos := mkVector2f (of_Z 200) zero in
  let ground_speed := mkVector2f (of_Z 10) zero in
  let s' := updateSetpoint (resetPattern stale) pos ground_speed scenario_parameters
              (of_Z 15) true in
  _current_segment s' = SEGMENT_UNDEFINED
  /\ classifySegment pos ground_speed scenario_parameters = SEGMENT_CIRCLE_NORTH
  /\ _current_segment s' <> classifySegment pos ground_speed scenario_parameters
  /\ delegate_calls s' = [NpfgSwitchDistance FLT_MAX].
Proof.
  cbv zeta. repeat split; try (vm_compute; reflexivity).
  intros H. vm_compute in H. discriminate H.
Qed.

(** C1, amended: a call of [updateSetpoint] that follows [resetPattern]
    does not resume the segment that was active before the reset, and it
    does not classify either: it leaves the segment undefined and makes no
    navigation request.  The classification branch is entered by the
    [initializePattern] call that follows the reset, for every position,
    ground velocity and parameter set (also one equal to the last applied),
    whether or not [updateSetpoint] was called in between. *)
Theorem C1_reset_forces_classification {platform : Collaborators}
    (s : FigureEight) (pos ground_speed : Vector2f)
    (parameters : FigureEightPatternParameters) (target_airspeed : float)
    (use_npfg : bool)
    (pos' ground_speed' : Vector2f) (parameters' : FigureEightPatternParameters) :
  let updated := updateSetpoint (resetPattern s) pos ground_speed parameters
                   target_airspeed use_npfg in
  let initialized := initializePattern (resetPattern s) pos' ground_speed' parameters' in
  let initialized_late := initializePattern updated pos' ground_speed' parameters' in
  (_current_segment updated = SEGMENT_UNDEFINED
   /\ delegate_calls updated = delegate_calls s ++ [switch_distance_query use_npfg]
   /\ _roll_setpoint updated = _roll_setpoint s
   /\ _indicated_airspeed_setpoint updated = _indicated_airspeed_setpoint s)
  /\ (_current_segment initialized = classifySegment pos' ground_speed' parameters'
      /\ _current_segment initialized <> SEGMENT_UNDEFINED
      /\ _active_parameters initialized = parameters'
      /\ _pos_passed_circle_center_along_major_axis initialized = false)
  /\ (_current_segment initialized_late = classifySegment pos' ground_speed' parameters'
      /\ _active_parameters initialized_late = parameters'
      /\ _pos_passed_circle_center_along_major_axis initialized_late = false).
Proof.
  cbv zeta.
  assert (Hreset : _current_segment (resetPattern s) = SEGMENT_UNDEFINED) by reflexivity.
  assert (Hupd : updateSetpoint (resetPattern s) pos ground_speed parameters
                   target_airspeed use_npfg
                 = record_calls [switch_distance_query use_npfg] (resetPattern s)).
  { unfold updateSetpoint.
    rewrite updateSegment_undefined by exact Hreset.
    now rewrite applyControl_undefined. }
  split; [rewrite Hupd; repeat split|].
  split.
  - destruct (initializePattern_after_undefined (resetPattern s) pos' ground_speed'
                parameters' Hreset) as (Hseg & Hact & Hflag).
    rewrite Hseg. repeat split; try assumption. apply classifySegment_defined.
  - apply initializePattern_after_undefined. now rewrite Hupd.
Qed.

(** * The passed-centre flag *)

(** C8, as stated, fails: on the north circle with the flag set and the
    vehicle next to the north exit point, the update moves to the line from
    north-east to south-west and leaves the flag set; the state observed
    after the call is on a line segment with the flag true. *)
Lemma C8_flag_survives_entry_into_line :
  let s := scenario_state SEGMENT_CIRCLE_NORTH true in
  let s' := updateSetpoint s (mkVector2f (of_Z 33) (of_Z 30)) (mkVector2f zero (of_Z 10))
              scenario_parameters (of_Z 15) false in
  _current_segment s' = SEGMENT_NORTHEAST_SOUTHWEST
  /\ is_line (_current_segment s') = true
  /\ _pos_passed_circle_center_along_major_axis s' = true.
Proof. cbv zeta. repeat split; vm_compute; reflexivity. Qed.

Lemma tick_flag {platform : Collaborators} (s : FigureEight) (t : Tick) :
  _pos_passed_circle_center_along_major_axis (tick s t)
  = _pos_passed_circle_center_along_major_axis
      (updateSegment s (tick_pos t)
         (sanitize (_param_nav_loiter_rad s) (tick_parameters t)) (tick_use_npfg t)
         (calculateFigureEightPoints
            (sanitize (_param_nav_loiter_rad s) (tick_parameters t)))).
Proof.
  unfold tick, updateSetpoint.
  match goal with |- context [applyControl ?u ?a ?b ?c ?d ?e ?f] =>
    destruct (applyControl_frame u a b c d e f) as (_ & -> & _) end.
  reflexivity.
Qed.

Lemma tick_segment {platform : Collaborators} (s : FigureEight) (t : Tick) :
  _current_segment (tick s t)
  = _current_segment
      (updateSegment s (tick_pos t)
         (sanitize (_param_nav_loiter_rad s) (tick_parameters t)) (tick_use_npfg t)
         (calculateFigureEightPoints
            (sanitize (_param_nav_loiter_rad s) (tick_parameters t)))).
Proof.
  unfold tick, updateSetpoint.
  match goal with |- context [applyControl ?u ?a ?b ?c ?d ?e ?f] =>
    destruct (applyControl_frame u a b c d e f) as (-> & _ & _) end.
  reflexivity.
Qed.

Lemma updateSegment_on_line_clears {platform : Collaborators} (s : FigureEight)
    pos parameters use_npfg points :
  is_line (_current_segment s) = true ->
  _pos_passed_circle_center_along_major_axis
    (updateSegment s pos parameters use_npfg points) = false.
Proof.
  unfold updateSegment. cbn [record_calls _current_segment].
  destruct (_current_segment s); cbn [is_line]; intros H; try discriminate H;
    case_if; reflexivity.
Qed.

Lemma updateSegment_undefined_keeps_flag {platform : Collaborators} (s : FigureEight)
    pos parameters use_npfg points :
  _current_segment s = SEGMENT_UNDEFINED ->
  _pos_passed_circle_center_along_major_axis
    (updateSegment s pos parameters use_npfg points)
  = _pos_passed_circle_center_along_major_axis s.
Proof. intros H. now rewrite updateSegment_undefined. Qed.

Lemma updateSegment_circle_to_line_keeps_flag {platform : Collaborators} (s : FigureEight)
    pos parameters use_npfg points :
  is_circle (_current_segment s) = true ->
  is_line (_current_segment (updateSegment s pos parameters use_npfg points)) = true ->
  _pos_passed_circle_center_along_major_axis
    (updateSegment s pos parameters use_npfg points) = true.
Proof.
  unfold updateSegment. cbn [record_calls _current_segment].
  destruct (_current_segment s) eqn:E; cbn [is_circle]; intros H; try discriminate H;
    match goal with
    | |- context [if ?c then set_current_segment _ _ else _] => destruct c eqn:C
    end;
    try (apply andb_prop in C; destruct C as [C _]);
    match goal with
    | |- context [if ?c then set_pos_passed _ _ else _] => destruct c
    end; cbn in *; rewrite ?E; cbn; intros L; try discriminate L;
    try reflexivity; exact C.
Qed.

Lemma perform_keeps_flag_clear_if_undefined {platform : Collaborators}
    (s : FigureEight) (op : Operation) :
  flag_clear_if_undefined s -> flag_clear_if_undefined (perform s op).
Proof.
  unfold flag_clear_if_undefined. intros Inv.
  destruct op as [|pos gs parameters|t]; cbn [perform].
  - reflexivity.
  - unfold initializePattern.
    destruct (pattern_needs_initialization s parameters); [reflexivity | exact Inv].
  - intros H. apply (proj2 (tick_step s t)) in H.
    rewrite tick_flag, updateSegment_undefined_keeps_flag by exact H. now apply Inv.
Qed.

Lemma performed_flag_clear_if_undefined {platform : Collaborators} (ops : list Operation) :
  forall s : FigureEight,
    flag_clear_if_undefined s -> flag_clear_if_undefined (fold_left perform ops s).
Proof.
  induction ops as [|op ops IH]; intros s Inv; [exact Inv|].
  simpl. now apply IH, perform_keeps_flag_clear_if_undefined.
Qed.

(** C8, amended: the flag is cleared by [resetPattern], by every
    (re)initialisation and by every update that starts on a line segment,
    and an update that starts with the segment undefined leaves it as it
    is; so in every state reached from a reset by any sequence of
    operations the flag is false whenever the segment is undefined, and it
    is false after every update that started on a line segment.  The update
    that moves from a circle to a line leaves the flag set: it is cleared by
    the next update, the first that starts on the line. *)
Theorem C8_flag_cleared_on_lines_and_reset {platform : Collaborators}
    (s : FigureEight) (pos ground_speed : Vector2f)
    (parameters : FigureEightPatternParameters) (t : Tick) (ops : list Operation) :
  _pos_passed_circle_center_along_major_axis (resetPattern s) = false
  /\ (pattern_needs_initialization s parameters = true ->
      _pos_passed_circle_center_along_major_axis
        (initializePattern s pos ground_speed parameters) = false)
  /\ (is_line (_current_segment s) = true ->
      _pos_passed_circle_center_along_major_axis (tick s t) = false)
  /\ (_current_segment s = SEGMENT_UNDEFINED ->
      _pos_passed_circle_center_along_major_axis (tick s t)
      = _pos_passed_circle_center_along_major_axis s)
  /\ (_current_segment (fold_left perform ops (resetPattern s)) = SEGMENT_UNDEFINED ->
      _pos_passed_circle_center_along_major_axis
        (fold_left perform ops (resetPattern s)) = false)
  /\ (is_circle (_current_segment s) = true ->
      is_line (_current_segment (tick s t)) = true ->
      _pos_passed_circle_center_along_major_axis (tick s t) = true).
Proof.
  split; [reflexivity|].
  split; [intros H; unfold initializePattern; now rewrite H|].
  split; [intros H; rewrite tick_flag; now apply updateSegment_on_line_clears|].
  split; [intros H; rewrite tick_flag; now apply updateSegment_undefined_keeps_flag|].
  split.
  - apply (performed_flag_clear_if_undefined ops (s := resetPattern s)).
    intros _. reflexivity.
  - intros Hc Hl. rewrite tick_flag. rewrite tick_segment in Hl.
    now apply updateSegment_circle_to_line_keeps_flag.
Qed.

(** The flag left set by the move from the north circle to the line is
    cleared by the next update; a change of the setpoint re-initialises the
    pattern and clears the flag; an update on the undefined segment keeps
    it; and after a reset, an update and a re-initialisation that does not
    take place on a still undefined segment, the flag is clear. *)
Lemma C8_flag_cleared_on_lines_and_reset_witness :
  let on_circle := scenario_state SEGMENT_CIRCLE_NORTH true in
  let t := mkTick (mkVector2f (of_Z 33) (of_Z 30)) (mkVector2f zero (of_Z 10))
             scenario_parameters (of_Z 15) false in
  let moved :=
    mkParameters (mkVector2f (of_Z 500) zero) (of_Z 100) (of_Z 40) zero false in
  _pos_passed_circle_center_along_major_axis (tick (tick on_circle t) t) = false
  /\ _pos_passed_circle_center_along_major_axis
       (initializePattern on_circle (tick_pos t) (tick_ground_speed t) moved) = false
  /\ _pos_passed_circle_center_along_major_axis
       (tick (scenario_state SEGMENT_UNDEFINED false) t) = false
  /\ _pos_passed_circle_center_along_major_axis
       (fold_left perform [OpUpdateSetpoint t] (resetPattern on_circle)) = false
  /\ _pos_passed_circle_center_along_major_axis (tick on_circle t) = true.
Proof.
  cbv zeta.
  pose (on_circle := scenario_state SEGMENT_CIRCLE_NORTH true).
  pose (t := mkTick (mkVector2f (of_Z 33) (of_Z 30)) (mkVector2f zero (of_Z 10))
               scenario_parameters (of_Z 15) false).
  pose (moved :=
          mkParameters (mkVector2f (of_Z 500) zero) (of_Z 100) (of_Z 40) zero false).
  split; [|split; [|split; [|split]]].
  - apply (C8_flag_cleared_on_lines_and_reset (tick on_circle t) (tick_pos t)
             (tick_ground_speed t) moved t []).
    vm_compute; reflexivity.
  - apply (C8_flag_cleared_on_lines_and_reset on_circle (tick_pos t)
             (tick_ground_speed t) moved t []).
    vm_compute; reflexivity.
  - change false with (_pos_passed_circle_center_along_major_axis
                         (scenario_state SEGMENT_UNDEFINED false)).
    apply (C8_flag_cleared_on_lines_and_reset (scenario_state SEGMENT_UNDEFINED false)
             (tick_pos t) (tick_ground_speed t) moved t []).
    vm_compute; reflexivity.
  - apply (C8_flag_cleared_on_lines_and_reset on_circle (tick_pos t)
             (tick_ground_speed t) moved t [OpUpdateSetpoint t]).
    vm_compute; reflexivity.
  - apply (C8_flag_cleared_on_lines_and_reset on_circle (tick_pos t)
             (tick_ground_speed t) moved t []); vm_compute; reflexivity.
Defined.

(** * Exit rules of the two circles *)

(** C2, as stated, fails: the south circle does not exit on the opposite
    lateral side.  On the south circle with the flag set, away from the
    exit point, a vehicle at the pattern centre's latitude on the positive
    lateral side (0, 50) is moved on to the line from south-east to
    north-west, where the mirrored rule with the reversed side keeps the
    circle; on the negative side (0, -50) the circle is kept, where that
    rule leaves it. *)
Lemma C2_south_exit_is_on_the_positive_side :
  let s := scenario_state SEGMENT_CIRCLE_SOUTH true in
  let points := calculateFigureEightPoints scenario_parameters in
  let sd := get_switch_distance_normalized s scenario_parameters false in
  let east := mkVector2f zero (of_Z 50) in
  let west := mkVector2f zero (of_Z (-50)) in
  (_current_segment (updateSegment s east scenario_parameters false points)
   = SEGMENT_SOUTHEAST_NORTHWEST
   /\ circle_south_exits_opposite_side s
        (calculatePositionToCenterNormalizedRotated east scenario_parameters) sd points
      = false)
  /\ (_current_segment (updateSegment s west scenario_parameters false points)
      = SEGMENT_CIRCLE_SOUTH
      /\ circle_south_exits_opposite_side s
           (calculatePositionToCenterNormalizedRotated west scenario_parameters) sd points
         = true).
Proof. cbv zeta. repeat split; vm_compute; reflexivity. Qed.

(** C2, amended: on the north circle the update sets the flag once
    relative-x exceeds the north circle offset, and moves on to the line
    NE-SW exactly when the flag is set and either the distance to the north
    exit point is below the normalised switch distance, or relative-x is
    below the north exit offset while the lateral coordinate is on the
    positive side.  The south circle is the mirror image along the major
    axis only: the flag is set once relative-x falls below the south circle
    offset, and the update moves on to the line SE-NW exactly when the flag
    is set and either the distance to the south exit point is below the
    switch distance, or relative-x is above the south exit offset while the
    lateral coordinate is on the same, positive, side.  On the computed
    pattern points the two tests along the major axis of the south circle
    are those of the north circle at the negated relative-x. *)
Theorem C2_circle_exit_rules {platform : Collaborators}
    (s : FigureEight) (pos : Vector2f) (parameters : FigureEightPatternParameters)
    (use_npfg : bool) (points : FigureEightPatternPoints) :
  let rel := calculatePositionToCenterNormalizedRotated pos parameters in
  let sd := get_switch_distance_normalized s parameters use_npfg in
  let s' := updateSegment s pos parameters use_npfg points in
  (_current_segment s = SEGMENT_CIRCLE_NORTH ->
   _pos_passed_circle_center_along_major_axis s' = circle_north_passed s rel points
   /\ _current_segment s'
      = if circle_north_exits s rel sd points
        then SEGMENT_NORTHEAST_SOUTHWEST else SEGMENT_CIRCLE_NORTH)
  /\ (_current_segment s = SEGMENT_CIRCLE_SOUTH ->
      _pos_passed_circle_center_along_major_axis s' = circle_south_passed s rel points
      /\ _current_segment s'
         = if circle_south_exits s rel sd points
           then SEGMENT_SOUTHEAST_NORTHWEST else SEGMENT_CIRCLE_SOUTH)
  /\ (let computed := calculateFigureEightPoints parameters in
      (v0 rel <? v0 (normalized_south_circle_offset computed))
      = (- v0 rel >? v0 (normalized_north_circle_offset computed))
      /\ (v0 rel >? v0 (normalized_south_exit_offset computed))
         = (- v0 rel <? v0 (normalized_north_exit_offset computed))).
Proof.
  cbv zeta. split; [|split].
  - intros E. unfold updateSegment, circle_north_exits, circle_north_passed,
      circle_exit_rule.
    cbn [record_calls _current_segment]. rewrite E.
    destruct (v0 _ >? v0 (normalized_north_circle_offset points));
      cbn [set_pos_passed record_calls _pos_passed_circle_center_along_major_axis];
      rewrite ?orb_true_r, ?orb_false_r;
      match goal with |- context [if ?c then set_current_segment _ _ else _] =>
        destruct c end; cbn; rewrite ?E; split; reflexivity.
  - intros E. unfold updateSegment, circle_south_exits, circle_south_passed,
      circle_exit_rule.
    cbn [record_calls _current_segment]. rewrite E.
    destruct (v0 _ <? v0 (normalized_south_circle_offset points));
      cbn [set_pos_passed record_calls _pos_passed_circle_center_along_major_axis];
      rewrite ?orb_true_r, ?orb_false_r;
      match goal with |- context [if ?c then set_current_segment _ _ else _] =>
        destruct c end; cbn; rewrite ?E; split; reflexivity.
  - destruct (south_offsets_are_negated_north_offsets parameters)
      as ([Hc _] & _ & [Hx _]).
    split.
    + unfold gtb. now apply ltb_mirror_r.
    + unfold gtb. now apply ltb_mirror_l.
Qed.

(** The north circle is left next to its exit point, and the south circle
    is left by the failsafe on the positive lateral side. *)
Lemma C2_circle_exit_rules_witness :
  let north := scenario_state SEGMENT_CIRCLE_NORTH true in
  let south := scenario_state SEGMENT_CIRCLE_SOUTH true in
  let points := calculateFigureEightPoints scenario_parameters in
  _current_segment
    (updateSegment north (mkVector2f (of_Z 33) (of_Z 30)) scenario_parameters false points)
  = SEGMENT_NORTHEAST_SOUTHWEST
  /\ _current_segment
       (updateSegment south (mkVector2f zero (of_Z 50)) scenario_parameters false points)
     = SEGMENT_SOUTHEAST_NORTHWEST.
Proof.
  cbv zeta. split.
  - destruct (C2_circle_exit_rules (scenario_state SEGMENT_CIRCLE_NORTH true)
                (mkVector2f (of_Z 33) (of_Z 30)) scenario_parameters false
                (calculateFigureEightPoints scenario_parameters)) as (Hn & _ & _).
    destruct (Hn eq_refl) as [_ Hseg]. rewrite Hseg. vm_compute. reflexivity.
  - destruct (C2_circle_exit_rules (scenario_state SEGMENT_CIRCLE_SOUTH true)
                (mkVector2f zero (of_Z 50)) scenario_parameters false
                (calculateFigureEightPoints scenario_parameters)) as (_ & Hs & _).
    destruct (Hs eq_refl) as [_ Hseg]. rewrite Hseg. vm_compute. reflexivity.
Defined.


(** * Further properties of the controller *)

(** ** More binary32 facts *)

Lemma ltb_nan_l (x y : float) : is_nan x = true -> (x <? y) = false.
Proof. destruct x; try discriminate. reflexivity. Qed.

Lemma ltb_nan_r (x y : float) : is_nan y = true -> (x <? y) = false.
Proof. destruct y; try discriminate. now destruct x. Qed.

Lemma sub_nan_l (x y : float) : is_nan x = true -> is_nan (x - y) = true.
Proof. destruct x; try discriminate. reflexivity. Qed.

Lemma sub_nan_r (x y : float) : is_nan y = true -> is_nan (x - y) = true.
Proof. destruct y; try discriminate. now destruct x. Qed.

Lemma fabsf_nan (x : float) : is_nan x = true -> is_nan (fabsf x) = true.
Proof. now destruct x. Qed.

(** The difference of a float and itself is [+0], or NaN for an infinity or
    a NaN. *)
Lemma sub_diag (x : float) : x - x = zero \/ is_nan (x - x) = true.
Proof.
  destruct x as [s|s| |s m e].
  - left. now destruct s.
  - right. now destruct s.
  - right. reflexivity.
  - left. unfold sub. cbn [SFsub]. now rewrite Z.sub_diag.
Qed.

(** No change is seen between a value and itself, nor when a value is not a
    number. *)
Lemma change_unseen_below_epsilon (a b : float) :
  change_unseen a b -> (fabsf (a - b) >? FLT_EPSILON) = false.
Proof.
  unfold gtb. intros [->|[H|H]].
  - destruct (sub_diag b) as [->|H]; [reflexivity|].
    now apply ltb_nan_r, fabsf_nan.
  - now apply ltb_nan_r, fabsf_nan, sub_nan_l.
  - now apply ltb_nan_r, fabsf_nan, sub_nan_r.
Qed.

(** ** What each entry point leaves alone *)

Lemma applyControl_configuration {platform : Collaborators} (s : FigureEight)
    pos gs parameters airspeed use_npfg points :
  let s' := applyControl s pos gs parameters airspeed use_npfg points in
  _param_nav_loiter_rad s' = _param_nav_loiter_rad s
  /\ _param_fw_airspd_max s' = _param_fw_airspd_max s
  /\ _wind_vel s' = _wind_vel s
  /\ _eas2tas s' = _eas2tas s.
Proof.
  unfold applyControl, applyCircle, applyLine.
  destruct (_current_segment s), use_npfg; repeat split.
Qed.

Lemma updateSegment_configuration {platform : Collaborators} (s : FigureEight)
    pos parameters use_npfg points :
  let s' := updateSegment s pos parameters use_npfg points in
  _param_nav_loiter_rad s' = _param_nav_loiter_rad s
  /\ _param_fw_airspd_max s' = _param_fw_airspd_max s
  /\ _wind_vel s' = _wind_vel s
  /\ _eas2tas s' = _eas2tas s
  /\ _active_parameters s' = _active_parameters s
  /\ _npfg s' = _npfg s
  /\ _l1_control s' = _l1_control s
  /\ _roll_setpoint s' = _roll_setpoint s
  /\ _indicated_airspeed_setpoint s' = _indicated_airspeed_setpoint s
  /\ delegate_calls s' = delegate_calls s ++ [switch_distance_query use_npfg].
Proof.
  cbv zeta. unfold updateSegment. cbn [record_calls _current_segment].
  destruct (_current_segment s); repeat case_if; repeat split.
Qed.

Lemma tick_configuration {platform : Collaborators} (s : FigureEight) (t : Tick) :
  _param_nav_loiter_rad (tick s t) = _param_nav_loiter_rad s
  /\ _param_fw_airspd_max (tick s t) = _param_fw_airspd_max s
  /\ _wind_vel (tick s t) = _wind_vel s
  /\ _eas2tas (tick s t) = _eas2tas s
  /\ _active_parameters (tick s t) = _active_parameters s.
Proof.
  unfold tick, updateSetpoint.
  match goal with |- context [applyControl ?u ?a ?b ?c ?d ?e ?f] =>
    destruct (applyControl_configuration u a b c d e f) as (-> & -> & -> & ->);
    destruct (applyControl_frame u a b c d e f) as (_ & _ & ->) end.
  match goal with |- context [updateSegment ?u ?a ?b ?c ?d] =>
    destruct (updateSegment_configuration u a b c d)
      as (-> & -> & -> & -> & -> & _) end.
  repeat split.
Qed.

Lemma run_configuration {platform : Collaborators} (ticks : list Tick) :
  forall s : FigureEight,
    _param_nav_loiter_rad (run s ticks) = _param_nav_loiter_rad s
    /\ _active_parameters (run s ticks) = _active_parameters s
    /\ (_current_segment (run s ticks) = SEGMENT_UNDEFINED
        <-> _current_segment s = SEGMENT_UNDEFINED).
Proof.
  induction ticks as [|t ticks IH]; intros s; [cbn; tauto|].
  change (run s (t :: ticks)) with (run (tick s t) ticks).
  destruct (IH (tick s t)) as (-> & -> & ->).
  destruct (tick_configuration s t) as (-> & _ & _ & _ & ->).
  destruct (tick_step s t) as [_ ->]. tauto.
Qed.

(** ** Change detection of [initializePattern] *)

Lemma segment_eqb_undefined (segment : FigureEightSegment) :
  segment_eqb segment SEGMENT_UNDEFINED = true <-> segment = SEGMENT_UNDEFINED.
Proof. destruct segment; cbn; split; intros H; try discriminate H; reflexivity. Qed.

Lemma pattern_needs_initialization_congr {platform : Collaborators}
    (a b : FigureEight) (parameters : FigureEightPatternParameters) :
  _active_parameters a = _active_parameters b ->
  (_current_segment a = SEGMENT_UNDEFINED <-> _current_segment b = SEGMENT_UNDEFINED) ->
  pattern_needs_initialization a parameters = pattern_needs_initialization b parameters.
Proof.
  intros Hact Hseg. unfold pattern_needs_initialization. rewrite Hact. f_equal.
  apply eq_true_iff_eq. now rewrite !segment_eqb_undefined.
Qed.

Lemma pattern_needs_initialization_unseen {platform : Collaborators}
    (s : FigureEight) (parameters : FigureEightPatternParameters) :
  _current_segment s <> SEGMENT_UNDEFINED ->
  change_unseen (v0 (center_pos_local (_active_parameters s)))
                (v0 (center_pos_local parameters)) ->
  change_unseen (v1 (center_pos_local (_active_parameters s)))
                (v1 (center_pos_local parameters)) ->
  change_unseen (loiter_radius (_active_parameters s)) (loiter_radius parameters) ->
  change_unseen (loiter_minor_radius (_active_parameters s))
                (loiter_minor_radius parameters) ->
  change_unseen (loiter_orientation (_active_parameters s))
                (loiter_orientation parameters) ->
  loiter_direction_counter_clockwise (_active_parameters s)
  = loiter_direction_counter_clockwise parameters ->
  pattern_needs_initialization s parameters = false.
Proof.
  intros Hseg Hx Hy Hr Hm Ho Hd. unfold pattern_needs_initialization.
  rewrite (change_unseen_below_epsilon Hx), (change_unseen_below_epsilon Hy),
    (change_unseen_below_epsilon Hr), (change_unseen_below_epsilon Hm),
    (change_unseen_below_epsilon Ho), Hd, Bool.eqb_reflx.
  cbn. rewrite orb_false_r.
  destruct (segment_eqb (_current_segment s) SEGMENT_UNDEFINED) eqn:E; [|reflexivity].
  apply segment_eqb_undefined in E. contradiction.
Qed.

(** X1: while a segment is active, [initializePattern] does nothing when
    every numeric field of the requested setpoint is the one last applied or
    is not a number on either side, and the direction flag is the same: a
    setpoint field that turns into NaN is never seen as a change. *)
Theorem X1_initializePattern_blind_to_nan {platform : Collaborators}
    (s : FigureEight) (pos ground_speed : Vector2f)
    (parameters : FigureEightPatternParameters) :
  _current_segment s <> SEGMENT_UNDEFINED ->
  change_unseen (v0 (center_pos_local (_active_parameters s)))
                (v0 (center_pos_local parameters)) ->
  change_unseen (v1 (center_pos_local (_active_parameters s)))
                (v1 (center_pos_local parameters)) ->
  change_unseen (loiter_radius (_active_parameters s)) (loiter_radius parameters) ->
  change_unseen (loiter_minor_radius (_active_parameters s))
                (loiter_minor_radius parameters) ->
  change_unseen (loiter_orientation (_active_parameters s))
                (loiter_orientation parameters) ->
  loiter_direction_counter_clockwise (_active_parameters s)
  = loiter_direction_counter_clockwise parameters ->
  initializePattern s pos ground_speed parameters = s.
Proof.
  intros Hseg Hx Hy Hr Hm Ho Hd. unfold initializePattern.
  now rewrite pattern_needs_initialization_unseen.
Qed.

(** On the north circle of the scenario, a request whose centre and major
    radius have become NaN is not taken up. *)
Lemma X1_initializePattern_blind_to_nan_witness :
  initializePattern (scenario_state SEGMENT_CIRCLE_NORTH true)
    (mkVector2f (of_Z 200) zero) (mkVector2f (of_Z 10) zero)
    (mkParameters (mkVector2f S754_nan zero) S754_nan (of_Z 40) zero false)
  = scenario_state SEGMENT_CIRCLE_NORTH true.
Proof.
  apply X1_initializePattern_blind_to_nan.
  - discriminate.
  - right; right; reflexivity.
  - left; reflexivity.
  - right; right; reflexivity.
  - left; reflexivity.
  - left; reflexivity.
  - reflexivity.
Defined.

(** X2: once [initializePattern] has been called with a setpoint, calling it
    again with the same setpoint after any number of [updateSetpoint] calls
    (with any inputs), and from any position, does nothing: the segment is
    classified once and then left to [updateSegment]. *)
Theorem X2_initializePattern_classifies_once {platform : Collaborators}
    (s : FigureEight) (pos ground_speed pos' ground_speed' : Vector2f)
    (parameters : FigureEightPatternParameters) (ticks : list Tick) :
  let initialized := initializePattern s pos ground_speed parameters in
  initializePattern (run initialized ticks) pos' ground_speed' parameters
  = run initialized ticks.
Proof.
  cbv zeta.
  set (s1 := initializePattern s pos ground_speed parameters).
  assert (H1 : pattern_needs_initialization s1 parameters = false).
  { unfold s1, initializePattern.
    destruct (pattern_needs_initialization s parameters) eqn:E; [|exact E].
    apply pattern_needs_initialization_unseen;
      cbn [set_pos_passed set_active_parameters set_current_segment
           _current_segment _active_parameters];
      try (left; reflexivity); try reflexivity.
    apply classifySegment_defined. }
  destruct (run_configuration ticks s1) as (_ & Hact & Hseg).
  unfold initializePattern at 1.
  now rewrite (pattern_needs_initialization_congr _ s1 parameters Hact Hseg), H1.
Qed.


(** ** Positions that are not numbers *)

(** X3: when the relative position along the major axis is not a number
    (the position or the centre is NaN, or 0/0 arises from a zero radius),
    the classification of [initializePattern] never selects a circle: it
    selects the line SE-NW when the rotated ground velocity points north and
    the line NE-SW otherwise. *)
Theorem X3_classification_of_nan_position {platform : Collaborators}
    (pos ground_speed : Vector2f) (parameters : FigureEightPatternParameters) :
  is_nan (v0 (calculatePositionToCenterNormalizedRotated pos parameters)) = true ->
  classifySegment pos ground_speed parameters
  = (if dot (transform ground_speed (calculateRotationAngle parameters))
            (mkVector2f one zero) >? zero
     then SEGMENT_SOUTHEAST_NORTHWEST else SEGMENT_NORTHEAST_SOUTHWEST)
  /\ is_line (classifySegment pos ground_speed parameters) = true.
Proof.
  intros H. unfold classifySegment, gtb.
  rewrite !(fun y => @ltb_nan_l _ y H), !(fun y => @ltb_nan_r y _ H).
  split; [reflexivity|]. now case_if.
Qed.

Lemma X3_classification_of_nan_position_witness :
  classifySegment (mkVector2f S754_nan zero) (mkVector2f (of_Z 10) zero)
    scenario_parameters
  = SEGMENT_SOUTHEAST_NORTHWEST.
Proof.
  destruct (@X3_classification_of_nan_position reference_platform
              (mkVector2f S754_nan zero) (mkVector2f (of_Z 10) zero)
              scenario_parameters) as [H _];
    [vm_compute; reflexivity | rewrite H; vm_compute; reflexivity].
Defined.



(** ** The hysteresis of the circles *)

Lemma updateSegment_circle_held {platform : Collaborators} (s : FigureEight)
    (t : Tick) :
  is_circle (_current_segment s) = true ->
  _pos_passed_circle_center_along_major_axis s = false ->
  beyond_circle_centre (_current_segment s) (_param_nav_loiter_rad s) t = false ->
  _current_segment (tick s t) = _current_segment s
  /\ _pos_passed_circle_center_along_major_axis (tick s t) = false.
Proof.
  intros Hc Hflag Hshort. rewrite tick_segment, tick_flag.
  unfold beyond_circle_centre in Hshort. cbv zeta in Hshort.
  unfold updateSegment. cbn [record_calls _current_segment].
  destruct (_current_segment s) eqn:E; try discriminate Hc;
    rewrite Hshort; cbn; rewrite Hflag; cbn; rewrite ?E, ?Hflag; split; reflexivity.
Qed.

(** X5: a circle is not left before the vehicle has been beyond its centre
    along the major axis.  Starting on a circle with the flag unset, for any
    sequence of [updateSetpoint] calls during which the vehicle is never
    beyond the circle centre (whatever the switch distance, the distance to
    the exit point and the lateral position), the segment is still that
    circle and the flag is still unset. *)
Theorem X5_circle_held_until_centre_passed {platform : Collaborators}
    (ticks : list Tick) (s : FigureEight) :
  is_circle (_current_segment s) = true ->
  _pos_passed_circle_center_along_major_axis s = false ->
  forallb (fun t => negb (beyond_circle_centre (_current_segment s)
                            (_param_nav_loiter_rad s) t)) ticks = true ->
  _current_segment (run s ticks) = _current_segment s
  /\ _pos_passed_circle_center_along_major_axis (run s ticks) = false.
Proof.
  revert s. induction ticks as [|t ticks IH]; intros s Hc Hflag Hall.
  - split; [reflexivity | exact Hflag].
  - cbn [forallb] in Hall. apply andb_prop in Hall. destruct Hall as [Ht Hall].
    apply negb_true_iff in Ht.
    destruct (updateSegment_circle_held s t Hc Hflag Ht) as [Hseg Hflag'].
    destruct (tick_configuration s t) as (Hnav & _).
    change (run s (t :: ticks)) with (run (tick s t) ticks).
    rewrite <- Hseg. apply IH.
    + now rewrite Hseg.
    + exact Hflag'.
    + now rewrite Hseg, Hnav.
Qed.

(** Two ticks on the north circle of the scenario at (30, 30), short of the
    circle centre at 60 and within reach of the failsafe. *)
Lemma X5_circle_held_until_centre_passed_witness :
  let t := mkTick (mkVector2f (of_Z 30) (of_Z 30)) (mkVector2f (of_Z 10) zero)
             scenario_parameters (of_Z 15) false in
  _current_segment (run (scenario_state SEGMENT_CIRCLE_NORTH false) [t; t])
  = SEGMENT_CIRCLE_NORTH
  /\ _pos_passed_circle_center_along_major_axis
       (run (scenario_state SEGMENT_CIRCLE_NORTH false) [t; t]) = false.
Proof.
  cbv zeta.
  apply (X5_circle_held_until_centre_passed
           [mkTick (mkVector2f (of_Z 30) (of_Z 30)) (mkVector2f (of_Z 10) zero)
              scenario_parameters (of_Z 15) false;
            mkTick (mkVector2f (of_Z 30) (of_Z 30)) (mkVector2f (of_Z 10) zero)
              scenario_parameters (of_Z 15) false]
           (scenario_state SEGMENT_CIRCLE_NORTH false));
    vm_compute; reflexivity.
Defined.


(** ** Exit rules of the two lines *)

Lemma same_sym (x y : float) : x == y -> y == x.
Proof. unfold same. intros H. now rewrite H. Qed.

Lemma same_opp (x y : float) : x == y -> - x == - y.
Proof.
  unfold same.
  destruct x as [sx|sx| |sx mx ex], y as [sy|sy| |sy my ey]; cbn;
    intros H; try discriminate H; try reflexivity; now inversion H.
Qed.

Lemma same_opp_swap (x y : float) : x == - y -> y == - x.
Proof.
  intros H. apply same_sym. apply same_opp in H.
  now rewrite opp_involutive in H.
Qed.

(** X6: on the line NE-SW the update clears the flag and moves on to the
    south circle exactly when the vehicle is within the switch distance of
    the south entry point, or relative-x is below the south entry offset on
    the negative lateral side (below [FLT_EPSILON]), or relative-x is below
    -1; otherwise the line is kept.  The line SE-NW is its mirror image
    along the major axis, on the same lateral side: on the computed pattern
    points, its two tests of relative-x are those of the line NE-SW at the
    negated relative-x. *)
Theorem X6_line_exit_rules {platform : Collaborators}
    (s : FigureEight) (pos : Vector2f) (parameters : FigureEightPatternParameters)
    (use_npfg : bool) (points : FigureEightPatternPoints) :
  let rel := calculatePositionToCenterNormalizedRotated pos parameters in
  let s' := updateSegment s pos parameters use_npfg points in
  (_current_segment s = SEGMENT_NORTHEAST_SOUTHWEST ->
   _current_segment s'
   = if line_exit_rule (near_exit_point s pos parameters use_npfg points)
          (v0 rel <? v0 (normalized_south_entry_offset points))
          (v1 rel <? FLT_EPSILON)
          (v0 rel <? - NORMALIZED_MAJOR_RADIUS)
     then SEGMENT_CIRCLE_SOUTH else SEGMENT_NORTHEAST_SOUTHWEST)
  /\ (_current_segment s = SEGMENT_SOUTHEAST_NORTHWEST ->
      _current_segment s'
      = if line_exit_rule (near_exit_point s pos parameters use_npfg points)
             (v0 rel >? v0 (normalized_north_entry_offset points))
             (v1 rel <? FLT_EPSILON)
             (v0 rel >? NORMALIZED_MAJOR_RADIUS)
        then SEGMENT_CIRCLE_NORTH else SEGMENT_SOUTHEAST_NORTHWEST)
  /\ (let computed := calculateFigureEightPoints parameters in
      (v0 rel >? v0 (normalized_north_entry_offset computed))
      = (- v0 rel <? v0 (normalized_south_entry_offset computed))
      /\ (v0 rel >? NORMALIZED_MAJOR_RADIUS)
         = (- v0 rel <? - NORMALIZED_MAJOR_RADIUS)).
Proof.
  cbv zeta. split; [|split].
  - intros E. unfold updateSegment, near_exit_point, line_exit_rule.
    cbn [record_calls _current_segment]. rewrite E. cbn [exit_point].
    case_if; cbn; now rewrite ?E.
  - intros E. unfold updateSegment, near_exit_point, line_exit_rule.
    cbn [record_calls _current_segment]. rewrite E. cbn [exit_point].
    case_if; cbn; now rewrite ?E.
  - destruct (south_offsets_are_negated_north_offsets parameters)
      as (_ & [Hn _] & _).
    split; unfold gtb; apply ltb_mirror_l.
    + now apply same_opp_swap.
    + apply eq_same. now rewrite opp_involutive.
Qed.

(** On the line NE-SW of the scenario: at (-150, 0) the vehicle is outside
    the major radius and the south circle is entered; on the line SE-NW at
    (150, 0) the north circle is entered. *)
Lemma X6_line_exit_rules_witness :
  let points := calculateFigureEightPoints scenario_parameters in
  _current_segment
    (updateSegment (scenario_state SEGMENT_NORTHEAST_SOUTHWEST false)
       (mkVector2f (of_Z (-150)) zero) scenario_parameters false points)
  = SEGMENT_CIRCLE_SOUTH
  /\ _current_segment
       (updateSegment (scenario_state SEGMENT_SOUTHEAST_NORTHWEST false)
          (mkVector2f (of_Z 150) zero) scenario_parameters false points)
     = SEGMENT_CIRCLE_NORTH.
Proof.
  cbv zeta. split.
  - destruct (X6_line_exit_rules (scenario_state SEGMENT_NORTHEAST_SOUTHWEST false)
                (mkVector2f (of_Z (-150)) zero) scenario_parameters false
                (calculateFigureEightPoints scenario_parameters)) as (H & _ & _).
    rewrite (H eq_refl). vm_compute. reflexivity.
  - destruct (X6_line_exit_rules (scenario_state SEGMENT_SOUTHEAST_NORTHWEST false)
                (mkVector2f (of_Z 150) zero) scenario_parameters false
                (calculateFigureEightPoints scenario_parameters)) as (_ & H & _).
    rewrite (H eq_refl). vm_compute. reflexivity.
Defined.

(** ** The selector and the switch distance *)

(** X7: the selector of the guidance acts on the segment update only
    through the switch distance: when both guidance objects answer the same
    switch distance, [updateSegment] yields the same segment and the same
    flag for either selector. *)
Theorem X7_selector_acts_through_switch_distance {platform : Collaborators}
    (s : FigureEight) (pos : Vector2f) (parameters : FigureEightPatternParameters)
    (points : FigureEightPatternPoints) :
  switchDistance (_npfg s) FLT_MAX = switch_distance (_l1_control s) FLT_MAX ->
  _current_segment (updateSegment s pos parameters true points)
  = _current_segment (updateSegment s pos parameters false points)
  /\ _pos_passed_circle_center_along_major_axis
       (updateSegment s pos parameters true points)
     = _pos_passed_circle_center_along_major_axis
         (updateSegment s pos parameters false points).
Proof.
  intros H. unfold updateSegment, get_switch_distance_normalized.
  rewrite H. cbn [record_calls _current_segment].
  destruct (_current_segment s);
    try destruct (v0 _ >? v0 (normalized_north_circle_offset points));
    try destruct (v0 _ <? v0 (normalized_south_circle_offset points));
    cbn [set_pos_passed record_calls _pos_passed_circle_center_along_major_axis
         _current_segment];
    repeat case_if; split; reflexivity.
Qed.

Lemma X7_selector_acts_through_switch_distance_witness :
  let s := scenario_state SEGMENT_CIRCLE_NORTH true in
  let pos := mkVector2f (of_Z 33) (of_Z 30) in
  let points := calculateFigureEightPoints scenario_parameters in
  _current_segment (updateSegment s pos scenario_parameters true points)
  = _current_segment (updateSegment s pos scenario_parameters false points)
  /\ _pos_passed_circle_center_along_major_axis
       (updateSegment s pos scenario_parameters true points)
     = _pos_passed_circle_center_along_major_axis
         (updateSegment s pos scenario_parameters false points).
Proof.
  exact (X7_selector_acts_through_switch_distance
           (scenario_state SEGMENT_CIRCLE_NORTH true) (mkVector2f (of_Z 33) (of_Z 30))
           scenario_parameters (calculateFigureEightPoints scenario_parameters)
           eq_refl).
Defined.


(** ** Requests to the guidance *)

(** X8: every [updateSetpoint] call queries the switch distance once and
    then makes exactly one navigation request when the segment it ends on
    is defined, and none when it is undefined.  All its calls go to the
    selected guidance; the other guidance object is left as it was. *)
Theorem X8_one_navigation_request_per_tick {platform : Collaborators}
    (s : FigureEight) (t : Tick) :
  exists requests : list DelegateCall,
    delegate_calls (tick s t)
    = delegate_calls s ++ switch_distance_query (tick_use_npfg t) :: requests
    /\ length (filter is_navigate requests)
       = (if segment_eqb (_current_segment (tick s t)) SEGMENT_UNDEFINED
          then 0%nat else 1%nat)
    /\ forallb (calls_selected_guidance (tick_use_npfg t))
         (switch_distance_query (tick_use_npfg t) :: requests) = true
    /\ (if tick_use_npfg t
        then _l1_control (tick s t) = _l1_control s
        else _npfg (tick s t) = _npfg s).
Proof.
  rewrite tick_segment. unfold tick, updateSetpoint.
  match goal with |- context [updateSegment ?u ?a ?b ?c ?d] =>
    destruct (updateSegment_configuration u a b c d)
      as (_ & _ & _ & _ & _ & Hn & Hl & _ & _ & Hcalls);
    set (mid := updateSegment u a b c d) in * end.
  unfold applyControl.
  destruct (_current_segment mid); unfold applyCircle, applyLine;
    destruct (tick_use_npfg t);
    cbn [record_calls set_npfg_output set_l1_output delegate_calls _npfg _l1_control];
    rewrite Hcalls, <- ?app_assoc; cbn [app];
    eexists; (split; [reflexivity|]); repeat split; assumption.
Qed.



(** X10: after an [updateSetpoint] call that started on a defined segment,
    the stored setpoints are those of the selected guidance after its
    navigation request: with the NPFG guidance the roll setpoint is its
    roll setpoint and the indicated airspeed is its airspeed reference
    divided by the conversion factor; with the L1 guidance the roll setpoint
    is its roll setpoint and the indicated airspeed is the target airspeed
    of the call, unchanged. *)
Theorem X10_setpoints_read_back {platform : Collaborators}
    (s : FigureEight) (t : Tick) :
  _current_segment s <> SEGMENT_UNDEFINED ->
  if tick_use_npfg t
  then _roll_setpoint (tick s t) = getRollSetpoint (_npfg (tick s t))
       /\ _indicated_airspeed_setpoint (tick s t)
          = getAirspeedRef (_npfg (tick s t)) / _eas2tas s
  else _roll_setpoint (tick s t) = get_roll_setpoint (_l1_control (tick s t))
       /\ _indicated_airspeed_setpoint (tick s t) = tick_airspeed t.
Proof.
  intros Hdef.
  assert (Hmid : _current_segment (tick s t) <> SEGMENT_UNDEFINED).
  { intros H. now apply (proj2 (tick_step s t)) in H. }
  rewrite tick_segment in Hmid. unfold tick, updateSetpoint.
  match goal with |- context [updateSegment ?u ?a ?b ?c ?d] =>
    destruct (updateSegment_configuration u a b c d)
      as (_ & _ & _ & He & _);
    set (mid := updateSegment u a b c d) in * end.
  unfold applyControl.
  destruct (_current_segment mid); try contradiction;
    unfold applyCircle, applyLine; destruct (tick_use_npfg t);
    cbn [record_calls set_npfg_output set_l1_output _roll_setpoint
         _indicated_airspeed_setpoint _npfg _l1_control];
    rewrite ?He; split; reflexivity.
Qed.

Lemma X10_setpoints_read_back_witness :
  let s := scenario_state SEGMENT_CIRCLE_SOUTH false in
  let t := mkTick (mkVector2f (of_Z (-80)) zero) (mkVector2f (of_Z 10) zero)
             scenario_parameters (of_Z 15) false in
  _roll_setpoint (tick s t) = get_roll_setpoint (_l1_control (tick s t))
  /\ _indicated_airspeed_setpoint (tick s t) = of_Z 15.
Proof.
  cbv zeta.
  apply (X10_setpoints_read_back (scenario_state SEGMENT_CIRCLE_SOUTH false)
           (mkTick (mkVector2f (of_Z (-80)) zero) (mkVector2f (of_Z 10) zero)
              scenario_parameters (of_Z 15) false)).
  discriminate.
Defined.

(** ** The pattern at the minimal feasible ratio *)

Lemma div_eucl_shifted (m k : positive) :
  Z.div_eucl (Z.shiftl (Zpos m) (Zpos k)) (Zpos m) = (Z.pow 2 (Zpos k), 0%Z).
Proof.
  rewrite Z.shiftl_mul_pow2 by lia.
  destruct (Z.div_eucl (Zpos m * 2 ^ Zpos k) (Zpos m)) as [q r] eqn:E.
  assert (Hq : q = (Zpos m * 2 ^ Zpos k / Zpos m)%Z) by (unfold Z.div; now rewrite E).
  assert (Hr : r = ((Zpos m * 2 ^ Zpos k) mod Zpos m)%Z)
    by (unfold Z.modulo; now rewrite E).
  rewrite Z.mul_comm, Z.div_mul in Hq by lia.
  rewrite Z.mul_comm, Z.mod_mul in Hr by lia.
  now subst.
Qed.

Lemma div_eucl_shifted_double (m k : positive) :
  Z.div_eucl (Z.shiftl (Zpos m) (Zpos (Pos.succ k))) (Zpos m~0)
  = (Z.pow 2 (Zpos k), 0%Z).
Proof.
  rewrite Z.shiftl_mul_pow2 by lia.
  destruct (Z.div_eucl (Zpos m * 2 ^ Zpos (Pos.succ k)) (Zpos m~0)) as [q r] eqn:E.
  assert (Hq : q = (Zpos m * 2 ^ Zpos (Pos.succ k) / Zpos m~0)%Z)
    by (unfold Z.div; now rewrite E).
  assert (Hr : r = ((Zpos m * 2 ^ Zpos (Pos.succ k)) mod Zpos m~0)%Z)
    by (unfold Z.modulo; now rewrite E).
  assert (Hrew : (Zpos m * 2 ^ Zpos (Pos.succ k) = 2 ^ Zpos k * Zpos m~0)%Z).
  { rewrite Pos2Z.inj_succ, Z.pow_succ_r by lia. rewrite (Pos2Z.inj_xO m). ring. }
  rewrite Hrew, Z.div_mul in Hq by lia.
  rewrite Hrew, Z.mod_mul in Hr by lia.
  now subst.
Qed.

Lemma new_location_exact (n : Z) : new_location n 0 = loc_Exact.
Proof. unfold new_location. destruct (Z.even n); reflexivity. Qed.

(** A number divided by itself is 1. *)
Lemma div_self (s : bool) (m : positive) (e : Z) :
  S754_finite s m e / S754_finite s m e = one.
Proof.
  unfold div, prec, emax. cbn [SFdiv]. unfold SFdiv_core_binary. cbn [Zdigits2].
  replace (Z.pos (digits2_pos m) + e - (Z.pos (digits2_pos m) + e))%Z with 0%Z by lia.
  replace (e - e)%Z with 0%Z by lia.
  change (Z.min (fexp 24 128 0) 0) with (-24)%Z.
  change (0 - -24)%Z with 24%Z. cbv beta iota zeta.
  rewrite (div_eucl_shifted m 24), new_location_exact, xorb_nilpotent.
  reflexivity.
Qed.

(** The difference of the double of a well-formed number and the number is
    the number, unless the double overflows. *)
Lemma sub_double_self (s : bool) (m : positive) (e : Z) :
  bounded prec emax m e = true ->
  PX4_ISFINITE (of_Z 2 * S754_finite s m e) = true ->
  of_Z 2 * S754_finite s m e - S754_finite s m e = S754_finite s m e.
Proof.
  intros Hb. rewrite (mul_two_finite s m e Hb).
  unfold bounded, canonical_mantissa, fexp, emin, prec, emax in Hb.
  apply andb_prop in Hb. destruct Hb as [Hc He].
  apply Z.eqb_eq in Hc. apply Z.leb_le in He.
  assert (Hround : binary_round 24 128 s m e = S754_finite s m e).
  { unfold binary_round, shl_align, fexp, emin. rewrite Hc, Z.sub_diag.
    unfold binary_round_aux, shr_fexp, fexp, emin. cbn [Zdigits2 shr_record_of_loc].
    rewrite Hc, Z.sub_diag.
    cbn [shr shr_m shr_r shr_s loc_of_shr_record round_nearest_even Zdigits2].
    rewrite Hc, Z.sub_diag. cbn [shr shr_m].
    replace (e <=? 128 - 24)%Z with true by (symmetry; apply Z.leb_le; lia).
    reflexivity. }
  destruct (Z.eqb_spec (Zpos (digits2_pos m)) 24) as [Ed|Ed].
  - destruct (Z.leb_spec (e + 1) 104) as [Hle|Hgt]; [intros _|discriminate].
    unfold sub, prec, emax. cbn [SFsub]. rewrite Z.min_r by lia.
    unfold shl_align. replace (e - (e + 1))%Z with (-1)%Z by lia.
    rewrite Z.sub_diag. cbn [Pos.iter fst].
    replace (cond_Zopp s (Z.pos m~0) - cond_Zopp s (Z.pos m))%Z
      with (cond_Zopp s (Z.pos m)) by (destruct s; unfold cond_Zopp; lia).
    destruct s; exact Hround.
  - intros _. unfold sub, prec, emax. cbn [SFsub]. rewrite Z.min_id.
    unfold shl_align. rewrite Z.sub_diag. cbn [fst].
    replace (cond_Zopp s (Z.pos m~0) - cond_Zopp s (Z.pos m))%Z
      with (cond_Zopp s (Z.pos m)) by (destruct s; unfold cond_Zopp; lia).
    destruct s; exact Hround.
Qed.

(** A well-formed number divided by its double is one half, unless the
    double overflows. *)
Lemma div_by_double (s : bool) (m : positive) (e : Z) :
  bounded prec emax m e = true ->
  PX4_ISFINITE (of_Z 2 * S754_finite s m e) = true ->
  S754_finite s m e / (of_Z 2 * S754_finite s m e) = of_scaled 1 (-1).
Proof.
  intros Hb. rewrite (mul_two_finite s m e Hb).
  destruct (Z.eqb_spec (Zpos (digits2_pos m)) 24) as [Ed|Ed].
  - destruct (Z.leb_spec (e + 1) 104) as [Hle|Hgt]; [intros _|discriminate].
    unfold div, prec, emax. cbn [SFdiv]. unfold SFdiv_core_binary. cbn [Zdigits2].
    replace (Z.pos (digits2_pos m) + e - (Z.pos (digits2_pos m) + (e + 1)))%Z
      with (-1)%Z by lia.
    replace (e - (e + 1))%Z with (-1)%Z by lia.
    change (Z.min (fexp 24 128 (-1)) (-1)) with (-25)%Z.
    change (-1 - -25)%Z with 24%Z. cbv beta iota zeta.
    rewrite (div_eucl_shifted m 24), new_location_exact, xorb_nilpotent.
    reflexivity.
  - intros _.
    unfold div, prec, emax. cbn [SFdiv]. unfold SFdiv_core_binary.
    cbn [Zdigits2 digits2_pos]. rewrite Pos2Z.inj_succ.
    replace (Z.pos (digits2_pos m) + e - (Z.succ (Z.pos (digits2_pos m)) + e))%Z
      with (-1)%Z by lia.
    replace (e - e)%Z with 0%Z by lia.
    change (Z.min (fexp 24 128 (-1)) 0) with (-25)%Z.
    change (0 - -25)%Z with 25%Z. cbv beta iota zeta.
    change 25%positive with (Pos.succ 24).
    rewrite (div_eucl_shifted_double m 24), new_location_exact, xorb_nilpotent.
    reflexivity.
Qed.

Lemma points_at_minimal_ratio (minor : float) (center : Vector2f) (orientation : float)
    (ccw : bool) :
  valid minor = true ->
  nonzero_number minor = true ->
  PX4_ISFINITE (of_Z 2 * minor) = true ->
  calculateFigureEightPoints (mkParameters center (of_Z 2 * minor) minor orientation ccw)
  = touching_circles.
Proof.
  destruct minor as [s|s| |s m e]; try discriminate.
  intros Hv _ Hfin. unfold valid, valid_binary in Hv.
  unfold calculateFigureEightPoints, normalized_minor_radius, sin_transition_angle,
    cos_transition_angle.
  cbn [loiter_radius loiter_minor_radius].
  rewrite (sub_double_self s m e Hv Hfin), div_self, (div_by_double s m e Hv Hfin).
  vm_compute. reflexivity.
Qed.

(** X11: when the clamp of the sanitiser is active (the major radius, after
    substitution, is not above twice the minor radius) and the minor radius
    is a well-formed finite number other than zero whose double does not
    overflow, the pattern computed from the sanitised parameters is always
    the same, whatever the radii: cos is 1 and sin is 0, the two circles
    have the normalised radius one half and touch at the pattern centre, and
    all four entry and exit points are the centre, so the two line segments
    have no length. *)
Theorem X11_clamped_pattern_has_no_lines (nav_loiter_rad : float)
    (parameters : FigureEightPatternParameters) :
  let substituted := substitute_non_finite nav_loiter_rad parameters in
  let adjusted := sanitize nav_loiter_rad parameters in
  valid (loiter_minor_radius substituted) = true ->
  nonzero_number (loiter_minor_radius substituted) = true ->
  PX4_ISFINITE (MINIMAL_FEASIBLE_MAJOR_TO_MINOR_AXIS_RATIO
                * loiter_minor_radius substituted) = true ->
  (loiter_radius substituted
     >? MINIMAL_FEASIBLE_MAJOR_TO_MINOR_AXIS_RATIO * loiter_minor_radius substituted)
  = false ->
  cos_transition_angle adjusted = one
  /\ sin_transition_angle adjusted = zero
  /\ normalized_minor_radius adjusted = of_scaled 1 (-1)
  /\ calculateFigureEightPoints adjusted = touching_circles.
Proof.
  cbv zeta. intros Hv Hnz Hfin Hclamp.
  unfold sanitize, math_max.
  change MINIMAL_FEASIBLE_MAJOR_TO_MINOR_AXIS_RATIO with (of_Z 2) in *.
  assert (Hpoints := points_at_minimal_ratio
            (loiter_minor_radius (substitute_non_finite nav_loiter_rad parameters))
            (center_pos_local (substitute_non_finite nav_loiter_rad parameters))
            (loiter_orientation (substitute_non_finite nav_loiter_rad parameters))
            (loiter_direction_counter_clockwise
               (substitute_non_finite nav_loiter_rad parameters))
            Hv Hnz Hfin).
  rewrite Hclamp.
  split; [|split; [|split]]; try exact Hpoints.
  - destruct (loiter_minor_radius (substitute_non_finite nav_loiter_rad parameters))
      as [s|s| |s m e]; try discriminate.
    unfold cos_transition_angle. cbn [loiter_radius loiter_minor_radius].
    unfold valid, valid_binary in Hv.
    now rewrite (sub_double_self s m e Hv Hfin), div_self.
  - destruct (loiter_minor_radius (substitute_non_finite nav_loiter_rad parameters))
      as [s|s| |s m e]; try discriminate.
    unfold sin_transition_angle, cos_transition_angle.
    cbn [loiter_radius loiter_minor_radius].
    unfold valid, valid_binary in Hv.
    rewrite (sub_double_self s m e Hv Hfin), div_self. vm_compute. reflexivity.
  - destruct (loiter_minor_radius (substitute_non_finite nav_loiter_rad parameters))
      as [s|s| |s m e]; try discriminate.
    unfold normalized_minor_radius. cbn [loiter_radius loiter_minor_radius].
    unfold valid, valid_binary in Hv.
    rewrite (div_by_double s m e Hv Hfin). vm_compute. reflexivity.
Qed.

(** A request for major radius 100 and minor radius 60 is clamped to the
    major radius 120. *)
Lemma X11_clamped_pattern_has_no_lines_witness :
  let adjusted :=
    sanitize (of_Z 80)
      (mkParameters (mkVector2f zero zero) (of_Z 100) (of_Z 60) zero false) in
  cos_transition_angle adjusted = one
  /\ sin_transition_angle adjusted = zero
  /\ normalized_minor_radius adjusted = of_scaled 1 (-1)
  /\ calculateFigureEightPoints adjusted = touching_circles.
Proof.
  cbv zeta.
  apply (X11_clamped_pattern_has_no_lines (of_Z 80)
           (mkParameters (mkVector2f zero zero) (of_Z 100) (of_Z 60) zero false));
    vm_compute; reflexivity.
Defined.

(** ** Sanitising twice *)

Lemma ltb_irrefl (x : float) : (x <? x) = false.
Proof.
  unfold ltb, SFltb. destruct (is_nan x) eqn:E.
  - destruct x; try discriminate E. reflexivity.
  - now rewrite compare_refl.
Qed.

Lemma math_max_idempotent (a b : float) : math_max (math_max a b) b = math_max a b.
Proof.
  unfold math_max. destruct (a >? b) eqn:E.
  - now rewrite E.
  - unfold gtb. now rewrite ltb_irrefl.
Qed.

(** X12: sanitising is idempotent on what it accepts: when the sanitised
    radii are finite (no substituted default and no doubling went to
    infinity), sanitising the sanitised parameters again gives them back
    unchanged, field by field. *)
Theorem X12_sanitize_idempotent (nav_loiter_rad : float)
    (parameters : FigureEightPatternParameters) :
  PX4_ISFINITE (loiter_radius (sanitize nav_loiter_rad parameters)) = true ->
  PX4_ISFINITE (loiter_minor_radius (sanitize nav_loiter_rad parameters)) = true ->
  sanitize nav_loiter_rad (sanitize nav_loiter_rad parameters)
  = sanitize nav_loiter_rad parameters.
Proof.
  intros HM Hm.
  set (q := sanitize nav_loiter_rad parameters) in *.
  assert (Hsub : substitute_non_finite nav_loiter_rad q = q).
  { unfold substitute_non_finite. now rewrite HM, Hm. }
  unfold sanitize at 1. rewrite Hsub.
  unfold q, sanitize. cbn [center_pos_local loiter_radius loiter_minor_radius
    loiter_orientation loiter_direction_counter_clockwise].
  now rewrite math_max_idempotent.
Qed.

(** Both radii NaN with the configured loiter radius 80: the first pass
    yields major 200 and minor 80, and the second pass keeps them. *)
Lemma X12_sanitize_idempotent_witness :
  let parameters := mkParameters (mkVector2f zero zero) S754_nan S754_nan zero false in
  sanitize (of_Z 80) (sanitize (of_Z 80) parameters) = sanitize (of_Z 80) parameters.
Proof.
  cbv zeta.
  apply (X12_sanitize_idempotent (of_Z 80)
           (mkParameters (mkVector2f zero zero) S754_nan S754_nan zero false));
    vm_compute; reflexivity.
Defined.

(** ** Symmetry in the major axis *)

(** X13: for every parameter set the entry and the exit point of each
    circle are mirror images of each other in the major axis: they have the
    same offset along the major axis and opposite lateral offsets, and both
    circle centres lie on the major axis. *)
Theorem X13_entry_and_exit_mirror_in_major_axis
    (parameters : FigureEightPatternParameters) :
  let points := calculateFigureEightPoints parameters in
  (v0 (normalized_north_entry_offset points) = v0 (normalized_north_exit_offset points)
   /\ v1 (normalized_north_entry_offset points)
      = - v1 (normalized_north_exit_offset points))
  /\ (v0 (normalized_south_entry_offset points)
      = v0 (normalized_south_exit_offset points)
      /\ v1 (normalized_south_entry_offset points)
         = - v1 (normalized_south_exit_offset points))
  /\ v1 (normalized_north_circle_offset points) = zero
  /\ v1 (normalized_south_circle_offset points) = zero.
Proof.
  cbv zeta. unfold calculateFigureEightPoints. cbn [v0 v1
    normalized_north_circle_offset normalized_north_entry_offset
    normalized_north_exit_offset normalized_south_circle_offset
    normalized_south_entry_offset normalized_south_exit_offset].
  rewrite mul_opp_l. repeat split.
Qed.

(** ** What the owner's operations never write *)

Lemma perform_frame {platform : Collaborators} (s : FigureEight) (op : Operation) :
  (_param_nav_loiter_rad (perform s op) = _param_nav_loiter_rad s
   /\ _param_fw_airspd_max (perform s op) = _param_fw_airspd_max s
   /\ _wind_vel (perform s op) = _wind_vel s
   /\ _eas2tas (perform s op) = _eas2tas s)
  /\ (is_update op = false ->
      _roll_setpoint (perform s op) = _roll_setpoint s
      /\ _indicated_airspeed_setpoint (perform s op) = _indicated_airspeed_setpoint s
      /\ _npfg (perform s op) = _npfg s
      /\ _l1_control (perform s op) = _l1_control s
      /\ delegate_calls (perform s op) = delegate_calls s)
  /\ (is_initialize op = false ->
      _active_parameters (perform s op) = _active_parameters s).
Proof.
  destruct op as [|pos gs parameters|t]; cbn [perform is_update is_initialize].
  - repeat split.
  - unfold initializePattern.
    destruct (pattern_needs_initialization s parameters);
      (split; [repeat split|split; [intros _; repeat split|discriminate]]).
  - destruct (tick_configuration s t) as (H1 & H2 & H3 & H4 & H5).
    split; [now repeat split|]. split; [discriminate|]. intros _. exact H5.
Qed.

(** X14: whatever sequence of operations the owner performs, the
    controller never writes the two configuration parameters, the wind
    estimate or the airspeed conversion factor; as long as no operation is
    [updateSetpoint], the roll and airspeed setpoints, both guidance objects
    and the record of calls are untouched ([resetPattern] and
    [initializePattern] never command the vehicle); and as long as no
    operation is [initializePattern], the last-applied parameters are
    untouched ([updateSetpoint] and [resetPattern] never store a
    setpoint). *)
Theorem X14_operations_keep_to_their_state {platform : Collaborators}
    (ops : list Operation) (s : FigureEight) :
  let s' := fold_left perform ops s in
  (_param_nav_loiter_rad s' = _param_nav_loiter_rad s
   /\ _param_fw_airspd_max s' = _param_fw_airspd_max s
   /\ _wind_vel s' = _wind_vel s
   /\ _eas2tas s' = _eas2tas s)
  /\ (existsb is_update ops = false ->
      _roll_setpoint s' = _roll_setpoint s
      /\ _indicated_airspeed_setpoint s' = _indicated_airspeed_setpoint s
      /\ _npfg s' = _npfg s
      /\ _l1_control s' = _l1_control s
      /\ delegate_calls s' = delegate_calls s)
  /\ (existsb is_initialize ops = false ->
      _active_parameters s' = _active_parameters s).
Proof.
  cbv zeta. revert s. induction ops as [|op ops IH]; intros s.
  - cbn. repeat split.
  - cbn [fold_left existsb].
    destruct (IH (perform s op)) as ((I1 & I2 & I3 & I4) & IU & II).
    destruct (perform_frame s op) as ((P1 & P2 & P3 & P4) & PU & PI).
    split; [|split].
    + rewrite I1, I2, I3, I4. now repeat split.
    + intros H. apply orb_false_elim in H. destruct H as [Hop Hops].
      destruct (IU Hops) as (-> & -> & -> & -> & ->). now apply PU.
    + intros H. apply orb_false_elim in H. destruct H as [Hop Hops].
      rewrite (II Hops). now apply PI.
Qed.

(** A reset followed by a re-initialisation with a new centre leaves the
    setpoints and the record of calls alone; a reset followed by an update
    leaves the last-applied parameters alone. *)
Lemma X14_operations_keep_to_their_state_witness :
  let s := scenario_state SEGMENT_CIRCLE_NORTH true in
  let moved :=
    mkParameters (mkVector2f (of_Z 500) zero) (of_Z 100) (of_Z 40) zero false in
  let t := mkTick (mkVector2f (of_Z 33) (of_Z 30)) (mkVector2f zero (of_Z 10))
             moved (of_Z 15) false in
  delegate_calls
    (fold_left perform
       [OpResetPattern; OpInitializePattern (tick_pos t) (tick_ground_speed t) moved] s)
  = delegate_calls s
  /\ _active_parameters (fold_left perform [OpResetPattern; OpUpdateSetpoint t] s)
     = _active_parameters s.
Proof.
  intros s moved t. split.
  - destruct (X14_operations_keep_to_their_state
                [OpResetPattern;
                 OpInitializePattern (tick_pos t) (tick_ground_speed t) moved] s)
      as (_ & Hupdate & _).
    destruct (Hupdate eq_refl) as (_ & _ & _ & _ & Hcalls). exact Hcalls.
  - destruct (X14_operations_keep_to_their_state
                [OpResetPattern; OpUpdateSetpoint t] s) as (_ & _ & Hinit).
    exact (Hinit eq_refl).
Defined.

(** ** The switch distance *)

Lemma ltb_leb_trans (x y z : float) :
  (x <? y) = true -> (y <=? z) = true -> (x <? z) = true.
Proof.
  unfold ltb, leb, SFltb, SFleb.
  destruct x as [sx|sx| |sx mx ex], y as [sy|sy| |sy my ey], z as [sz|sz| |sz mz ez];
    cbn; try discriminate; try reflexivity;
    try (destruct sx; try discriminate; try reflexivity;
         destruct sy; try discriminate; try reflexivity;
         destruct sz; try discriminate; reflexivity);
    try (destruct sx; try discriminate; try reflexivity;
         destruct sz; try discriminate; reflexivity);
    try (destruct sy; try discriminate; try reflexivity;
         destruct sz; try discriminate; reflexivity);
    try (destruct sx; try discriminate; try reflexivity;
         destruct sy; try discriminate; reflexivity);
    try (destruct sx; try discriminate; reflexivity);
    try (destruct sy; try discriminate; reflexivity);
    try (destruct sz; try discriminate; reflexivity).
  all: change (Pos.compare_cont Eq mx my) with (Pos.compare mx my);
       change (Pos.compare_cont Eq my mz) with (Pos.compare my mz);
       change (Pos.compare_cont Eq mx mz) with (Pos.compare mx mz).
  all: destruct sx, sy, sz; try discriminate; try reflexivity;
       destruct (Z.compare_spec ex ey); try discriminate;
       destruct (Z.compare_spec ey ez); try discriminate;
       destruct (Z.compare_spec ex ez); try lia; try reflexivity; subst;
       try (destruct (Pos.compare_spec mx my); try discriminate);
       try (destruct (Pos.compare_spec my mz); try discriminate);
       try (destruct (Pos.compare_spec mx mz); try discriminate);
       cbn; try discriminate; try reflexivity; try lia.
Qed.

(** The exit decisions are monotone in the distance test. *)
Lemma circle_exit_rule_monotone (passed near near' beyond lateral : bool) :
  (near = true -> near' = true) ->
  circle_exit_rule passed near beyond lateral = true ->
  circle_exit_rule passed near' beyond lateral = true.
Proof.
  unfold circle_exit_rule. destruct passed, near, near', beyond, lateral; cbn;
    intros H; try reflexivity; try discriminate; intros _; now apply H.
Qed.

Lemma line_exit_rule_monotone (near near' beyond lateral overshoot : bool) :
  (near = true -> near' = true) ->
  line_exit_rule near beyond lateral overshoot = true ->
  line_exit_rule near' beyond lateral overshoot = true.
Proof.
  unfold line_exit_rule. destruct near, near', beyond, lateral, overshoot; cbn;
    intros H; try reflexivity; try discriminate; intros _; now apply H.
Qed.

Lemma updateSegment_segment {platform : Collaborators}
    (s : FigureEight) (pos : Vector2f) (parameters : FigureEightPatternParameters)
    (use_npfg : bool) (points : FigureEightPatternPoints) :
  let rel := calculatePositionToCenterNormalizedRotated pos parameters in
  let sd := get_switch_distance_normalized s parameters use_npfg in
  _current_segment (updateSegment s pos parameters use_npfg points)
  = match _current_segment s with
    | SEGMENT_UNDEFINED => SEGMENT_UNDEFINED
    | SEGMENT_CIRCLE_NORTH =>
        if circle_north_exits s rel sd points
        then SEGMENT_NORTHEAST_SOUTHWEST else SEGMENT_CIRCLE_NORTH
    | SEGMENT_NORTHEAST_SOUTHWEST =>
        if line_exit_rule
             (norm (vsub (normalized_south_entry_offset points) rel) <? sd)
             (v0 rel <? v0 (normalized_south_entry_offset points))
             (v1 rel <? FLT_EPSILON)
             (v0 rel <? - NORMALIZED_MAJOR_RADIUS)
        then SEGMENT_CIRCLE_SOUTH else SEGMENT_NORTHEAST_SOUTHWEST
    | SEGMENT_CIRCLE_SOUTH =>
        if circle_south_exits s rel sd points
        then SEGMENT_SOUTHEAST_NORTHWEST else SEGMENT_CIRCLE_SOUTH
    | SEGMENT_SOUTHEAST_NORTHWEST =>
        if line_exit_rule
             (norm (vsub (normalized_north_entry_offset points) rel) <? sd)
             (v0 rel >? v0 (normalized_north_entry_offset points))
             (v1 rel <? FLT_EPSILON)
             (v0 rel >? NORMALIZED_MAJOR_RADIUS)
        then SEGMENT_CIRCLE_NORTH else SEGMENT_SOUTHEAST_NORTHWEST
    end.
Proof.
  cbv zeta. unfold updateSegment, circle_north_exits, circle_north_passed,
    circle_south_exits, circle_south_passed, circle_exit_rule, line_exit_rule.
  cbn [record_calls _current_segment].
  destruct (_current_segment s) eqn:E.
  - exact E.
  - destruct (v0 _ >? v0 (normalized_north_circle_offset points));
      cbn [set_pos_passed record_calls _pos_passed_circle_center_along_major_axis];
      rewrite ?orb_true_r, ?orb_false_r; case_if; cbn; now rewrite ?E.
  - case_if; cbn; now rewrite ?E.
  - destruct (v0 _ <? v0 (normalized_south_circle_offset points));
      cbn [set_pos_passed record_calls _pos_passed_circle_center_along_major_axis];
      rewrite ?orb_true_r, ?orb_false_r; case_if; cbn; now rewrite ?E.
  - case_if; cbn; now rewrite ?E.
Qed.

(** X15: a larger switch distance never delays a transition.  For two
    controller states on the same segment with the same flag, at the same
    position, parameters and pattern points, if the normalised switch
    distance of the first is at most that of the second and the update of
    the first state leaves the segment, then the update of the second state
    leaves it too, for the same next segment. *)
Theorem X15_larger_switch_distance_never_delays {platform : Collaborators}
    (s s' : FigureEight) (pos : Vector2f) (parameters : FigureEightPatternParameters)
    (use_npfg use_npfg' : bool) (points : FigureEightPatternPoints) :
  _current_segment s = _current_segment s' ->
  _pos_passed_circle_center_along_major_axis s
  = _pos_passed_circle_center_along_major_axis s' ->
  (get_switch_distance_normalized s parameters use_npfg
     <=? get_switch_distance_normalized s' parameters use_npfg') = true ->
  _current_segment (updateSegment s pos parameters use_npfg points)
  <> _current_segment s ->
  _current_segment (updateSegment s' pos parameters use_npfg' points)
  = _current_segment (updateSegment s pos parameters use_npfg points).
Proof.
  intros Hseg Hflag Hle. rewrite !updateSegment_segment. rewrite <- Hseg.
  unfold circle_north_exits, circle_south_exits, circle_north_passed,
    circle_south_passed. rewrite <- Hflag.
  assert (Hmono : forall n : float,
             (n <? get_switch_distance_normalized s parameters use_npfg) = true ->
             (n <? get_switch_distance_normalized s' parameters use_npfg') = true).
  { intros n Hn. exact (@ltb_leb_trans _ _ _ Hn Hle). }
  destruct (_current_segment s); intros Hleft; try contradiction.
  - destruct (circle_exit_rule _ _ _ _) eqn:E in Hleft |- *; [|contradiction].
    now rewrite (@circle_exit_rule_monotone _ _ _ _ _ (Hmono _) E).
  - destruct (line_exit_rule _ _ _ _) eqn:E in Hleft |- *; [|contradiction].
    now rewrite (@line_exit_rule_monotone _ _ _ _ _ (Hmono _) E).
  - destruct (circle_exit_rule _ _ _ _) eqn:E in Hleft |- *; [|contradiction].
    now rewrite (@circle_exit_rule_monotone _ _ _ _ _ (Hmono _) E).
  - destruct (line_exit_rule _ _ _ _) eqn:E in Hleft |- *; [|contradiction].
    now rewrite (@line_exit_rule_monotone _ _ _ _ _ (Hmono _) E).
Qed.

(** On the line NE-SW of the scenario next to the south entry point, with
    the switch distances 10 and 20. *)
Lemma X15_larger_switch_distance_never_delays_witness :
  let s := scenario_state SEGMENT_NORTHEAST_SOUTHWEST false in
  let s' := mkFigureEight (platform := reference_platform)
              scenario_guidance (mkStubGuidance (of_Z 20) (of_Z 15))
              (mkVector2f zero zero) one (of_Z 80) (of_Z 25) scenario_parameters
              SEGMENT_NORTHEAST_SOUTHWEST false zero zero [] in
  let pos := mkVector2f (of_Z (-33)) (of_Z (-30)) in
  let points := calculateFigureEightPoints scenario_parameters in
  _current_segment (updateSegment s' pos scenario_parameters false points)
  = _current_segment (updateSegment s pos scenario_parameters false points).
Proof.
  intros s s' pos points.
  apply (X15_larger_switch_distance_never_delays s s' pos scenario_parameters
           false false points).
  - reflexivity.
  - reflexivity.
  - vm_compute. reflexivity.
  - intros H. vm_compute in H. discriminate H.
Defined.


(** ** Who defines and who undefines the segment *)

Lemma tick_undefined {platform : Collaborators} (s : FigureEight) (t : Tick) :
  _current_segment s = SEGMENT_UNDEFINED ->
  tick s t = record_calls [switch_distance_query (tick_use_npfg t)] s.
Proof.
  intros H. unfold tick, updateSetpoint.
  rewrite updateSegment_undefined by exact H.
  now rewrite applyControl_undefined.
Qed.

Lemma perform_keeps_defined {platform : Collaborators} (s : FigureEight)
    (op : Operation) :
  is_reset op = false ->
  _current_segment s <> SEGMENT_UNDEFINED ->
  _current_segment (perform s op) <> SEGMENT_UNDEFINED.
Proof.
  destruct op as [|pos gs parameters|t]; cbn [perform is_reset]; intros Hop Hs.
  - discriminate Hop.
  - unfold initializePattern.
    destruct (pattern_needs_initialization s parameters); [|exact Hs].
    apply classifySegment_defined.
  - intros H. now apply (proj2 (tick_step s t)) in H.
Qed.

Lemma perform_keeps_undefined {platform : Collaborators} (s : FigureEight)
    (op : Operation) :
  is_initialize op = false ->
  _current_segment s = SEGMENT_UNDEFINED ->
  _current_segment (perform s op) = SEGMENT_UNDEFINED
  /\ _roll_setpoint (perform s op) = _roll_setpoint s
  /\ _indicated_airspeed_setpoint (perform s op) = _indicated_airspeed_setpoint s
  /\ _npfg (perform s op) = _npfg s
  /\ _l1_control (perform s op) = _l1_control s
  /\ exists queries : list DelegateCall,
       delegate_calls (perform s op) = delegate_calls s ++ queries
       /\ existsb is_navigate queries = false.
Proof.
  destruct op as [|pos gs parameters|t]; cbn [perform is_initialize]; intros Hop Hs.
  - repeat split. exists []. split; [now rewrite app_nil_r | reflexivity].
  - discriminate Hop.
  - rewrite (@tick_undefined _ s t Hs). cbn. repeat split; try assumption.
    exists [switch_distance_query (tick_use_npfg t)].
    split; [reflexivity|]. now destruct (tick_use_npfg t).
Qed.

(** X16: only [resetPattern] undefines the segment and only
    [initializePattern] defines it.  Over any sequence of operations
    without a reset, a defined segment stays defined; over any sequence
    without an initialisation, an undefined segment stays undefined, and
    then the controller commands nothing: the roll and airspeed setpoints
    and both guidance objects are as before, and the calls made are
    switch-distance queries only, never a navigation request. *)
Theorem X16_segment_defined_by_initialization_only {platform : Collaborators}
    (ops : list Operation) (s : FigureEight) :
  let s' := fold_left perform ops s in
  (existsb is_reset ops = false ->
   _current_segment s <> SEGMENT_UNDEFINED ->
   _current_segment s' <> SEGMENT_UNDEFINED)
  /\ (existsb is_initialize ops = false ->
      _current_segment s = SEGMENT_UNDEFINED ->
      _current_segment s' = SEGMENT_UNDEFINED
      /\ _roll_setpoint s' = _roll_setpoint s
      /\ _indicated_airspeed_setpoint s' = _indicated_airspeed_setpoint s
      /\ _npfg s' = _npfg s
      /\ _l1_control s' = _l1_control s
      /\ exists queries : list DelegateCall,
           delegate_calls s' = delegate_calls s ++ queries
           /\ existsb is_navigate queries = false).
Proof.
  cbv zeta. revert s. induction ops as [|op ops IH]; intros s.
  - split; [tauto|]. intros _ Hs. repeat split; try assumption.
    exists []. split; [now rewrite app_nil_r | reflexivity].
  - cbn [fold_left existsb]. destruct (IH (perform s op)) as [IHd IHu]. split.
    + intros H Hs. apply orb_false_elim in H. destruct H as [Hop Hops].
      apply IHd; [exact Hops|]. now apply perform_keeps_defined.
    + intros H Hs. apply orb_false_elim in H. destruct H as [Hop Hops].
      destruct (@perform_keeps_undefined _ s op Hop Hs)
        as (P0 & P1 & P2 & P3 & P4 & q1 & Pq & Pn).
      destruct (IHu Hops P0) as (I0 & I1 & I2 & I3 & I4 & q2 & Iq & In).
      rewrite I1, I2, I3, I4. repeat split; try assumption.
      exists (q1 ++ q2). split.
      * now rewrite Iq, Pq, app_assoc.
      * rewrite existsb_app, Pn, In. reflexivity.
Qed.

(** After the initialisation of the scenario, two updates and a
    re-initialisation keep the segment defined; from the undefined segment,
    a reset and two updates only query the switch distance. *)
Lemma X16_segment_defined_by_initialization_only_witness :
  let t := mkTick (mkVector2f (of_Z 33) (of_Z 30)) (mkVector2f zero (of_Z 10))
             scenario_parameters (of_Z 15) false in
  _current_segment
    (fold_left perform
       [OpUpdateSetpoint t;
        OpInitializePattern (tick_pos t) (tick_ground_speed t) scenario_parameters;
        OpUpdateSetpoint t]
       (scenario_state SEGMENT_CIRCLE_NORTH true))
  <> SEGMENT_UNDEFINED
  /\ _current_segment
       (fold_left perform [OpUpdateSetpoint t; OpResetPattern; OpUpdateSetpoint t]
          (scenario_state SEGMENT_UNDEFINED false))
     = SEGMENT_UNDEFINED.
Proof.
  intros t. split.
  - destruct (X16_segment_defined_by_initialization_only
                [OpUpdateSetpoint t;
                 OpInitializePattern (tick_pos t) (tick_ground_speed t)
                   scenario_parameters;
                 OpUpdateSetpoint t]
                (scenario_state SEGMENT_CIRCLE_NORTH true)) as [H _].
    apply H; [reflexivity | discriminate].
  - destruct (X16_segment_defined_by_initialization_only
                [OpUpdateSetpoint t; OpResetPattern; OpUpdateSetpoint t]
                (scenario_state SEGMENT_UNDEFINED false)) as [_ H].
    now destruct (H eq_refl eq_refl) as [H0 _].
Defined.
